(** * seisplot: the [Seismic] volume object of [src/seismic.py]

    A shallow embedding of the class [Seismic]: its constructor, the line
    accessors, the bandwidth estimate of [spectrum] / [plot_spectrum], and
    what [from_obspy] prepares for the constructor.

    Conventions of the embedding.
    - A NumPy array is its shape together with its elements in row-major
      (C) order, which is the order [reshape] and integer indexing follow.
    - A Python [int] is a [Z]; a [float] (the array dtype, [dt], [tstart],
      frequencies, decibels) is an exact rational [Q]: rounding, infinities
      and NaN are outside the model.
    - A raised exception is a value [Raise e]; what [print] writes is kept
      as a log of messages next to the result.
    - [np.fft.rfft], [np.blackman] and [np.log10] are parameters of the
      spectral functions: everything proved holds whatever they compute. *)

From Stdlib Require Import ZArith QArith Qround Qabs String Ascii Bool Lia Lqa List.
Import ListNotations.

(** ** Exceptions and results *)

Inductive exn : Type :=
| ValueError
| IndexError
| ZeroDivisionError
| Unmodelled.  (* an outcome this embedding does not follow *)

Inductive result (A : Type) : Type :=
| Ok (a : A)
| Raise (e : exn).

Arguments Ok {A} a.
Arguments Raise {A} e.

Definition bind {A B : Type} (c : result A) (k : A -> result B) : result B :=
  match c with
  | Ok a => k a
  | Raise e => Raise e
  end.

Notation "x <- c ;; k" := (bind c (fun x => k))
  (at level 61, c at next level, right associativity).
Notation "' pat <- c ;; k" := (bind c (fun x => match x with pat => k end))
  (at level 61, pat pattern, c at next level, right associativity).

Fixpoint mapM {A B : Type} (f : A -> result B) (l : list A) : result (list B) :=
  match l with
  | [] => Ok []
  | a :: l' => b <- f a ;; bs <- mapM f l' ;; Ok (b :: bs)
  end.

(** Comparisons of floats, as booleans. *)
Definition Qleb (x y : Q) : bool := Qle_bool x y.
Definition Qltb (x y : Q) : bool := negb (Qle_bool y x).

(** An [int] count as a float. *)
Definition of_nat (k : nat) : Q := inject_Z (Z.of_nat k).

(** ** The part of NumPy the class uses *)

Module Np.

(** [shape] and the elements in row-major order. *)
Record ndarray : Type := mk_ndarray {
  shape : list nat;
  flat : list Q
}.

Definition prod (dims : list nat) : nat := fold_right Nat.mul 1%nat dims.

Definition size (a : ndarray) : nat := prod (shape a).
Definition ndim (a : ndarray) : nat := length (shape a).

(** [a.shape[0]] and [a.shape[-1]]: a 0-d array has neither. *)
Definition shape_first (a : ndarray) : result nat :=
  match shape a with
  | [] => Raise IndexError
  | n :: _ => Ok n
  end.

Definition shape_last (a : ndarray) : result nat :=
  match rev (shape a) with
  | [] => Raise IndexError
  | n :: _ => Ok n
  end.

(** [a.reshape(dims)] for non-negative [dims]: the same elements in the same
    order under the new shape, or [ValueError] when the sizes differ. *)
Definition reshape (a : ndarray) (dims : list nat) : result ndarray :=
  if (prod dims =? size a)%nat
  then Ok {| shape := dims; flat := flat a |}
  else Raise ValueError.

(** [np.linspace(start, stop, num)]. *)
Definition linspace (start stop : Q) (num : Z) : result (list Q) :=
  if (num <? 0)%Z then Raise ValueError
  else if (num =? 1)%Z then Ok [start]
  else
    let step := (stop - start) / inject_Z (num - 1) in
    Ok (map (fun i => start + of_nat i * step)
            (seq 0 (Z.to_nat num))).

(** [np.arange(start, stop, step)]: [ceil((stop - start) / step)] entries
    [start + i * step]; a zero step raises. *)
Definition arange (start stop step : Q) : result (list Q) :=
  if Qeq_bool step 0 then Raise ZeroDivisionError
  else
    let n := Z.to_nat (Qceiling ((stop - start) / step)) in
    Ok (map (fun i => start + of_nat i * step) (seq 0 n)).

(** [np.amin] and [np.amax]: a zero-size array has no minimum. *)
Definition Qmin (x y : Q) : Q := if Qleb x y then x else y.
Definition Qmax (x y : Q) : Q := if Qleb x y then y else x.

Definition amin (l : list Q) : result Q :=
  match l with
  | [] => Raise ValueError
  | x :: l' => Ok (fold_left Qmin l' x)
  end.

Definition amax (l : list Q) : result Q :=
  match l with
  | [] => Raise ValueError
  | x :: l' => Ok (fold_left Qmax l' x)
  end.

(** [np.argmax]: the first index of a maximal entry. *)
Fixpoint argmax_from (l : list Q) (i best : nat) (m : Q) : nat :=
  match l with
  | [] => best
  | x :: l' => if Qltb m x then argmax_from l' (S i) i x
               else argmax_from l' (S i) best m
  end.

Definition argmax (l : list Q) : result nat :=
  match l with
  | [] => Raise ValueError
  | x :: l' => Ok (argmax_from l' 1 0 x)
  end.

(** [np.mean] of a 1-d array (division of an empty sum is NaN in NumPy; it
    is not reached by the class with an empty list). *)
Definition Qsum (l : list Q) : Q := fold_right Qplus 0 l.

Definition mean (l : list Q) : Q := Qsum l / of_nat (length l).

(** [np.interp(x, xp, fp)] for increasing [xp]: clamped at both ends, linear
    between the two sample points around [x]. *)
Fixpoint interp_from (x : Q) (p0 : Q * Q) (rest : list (Q * Q)) : Q :=
  match rest with
  | [] => snd p0
  | p1 :: rest' =>
      if Qltb x (fst p1)
      then (snd p1 - snd p0) / (fst p1 - fst p0) * (x - fst p0) + snd p0
      else interp_from x p1 rest'
  end.

Definition interp (x : Q) (xp fp : list Q) : result Q :=
  if negb (length xp =? length fp)%nat then Raise ValueError
  else
    match combine xp fp with
    | [] => Raise ValueError
    | p0 :: rest => if Qltb x (fst p0) then Ok (snd p0)
                    else Ok (interp_from x p0 rest)
    end.

(** [a[i]] on one axis of length [n]: negative indices count from the end. *)
Definition index (n : nat) (i : Z) : result nat :=
  if ((0 <=? i) && (i <? Z.of_nat n))%Z then Ok (Z.to_nat i)
  else if ((- Z.of_nat n <=? i) && (i <? 0))%Z then Ok (Z.to_nat (i + Z.of_nat n))
  else Raise IndexError.

(** [l[0]] and [l[-1]] of a 1-d array. *)
Definition first (l : list Q) : result Q :=
  match l with
  | [] => Raise IndexError
  | x :: _ => Ok x
  end.

Definition last (l : list Q) : result Q :=
  match rev l with
  | [] => Raise IndexError
  | x :: _ => Ok x
  end.

End Np.

(** ** The class [Seismic] *)

Module Seismic.

(** The [params] dictionary: each recognised key is present or absent. *)
Record Params : Type := mk_params {
  p_header : option string;
  p_ntraces : option Z;
  p_inlines : option (list Q);
  p_xlines : option (list Q);
  p_ninlines : option Z;
  p_nxlines : option Z;
  p_nsamples : option Z;
  p_tstart : option Q;
  p_dt : option Q
}.

(** [params = {}], also what [params=None] becomes. *)
Definition no_params : Params :=
  mk_params None None None None None None None None None.

(** [params.get(key, default)]. *)
Definition get {A : Type} (o : option A) (default : A) : A :=
  match o with
  | Some v => v
  | None => default
  end.

(** The two lines the constructor may print. *)
Inductive message : Type :=
| Nsamples_changed (n : Z)
| Nxlines_changed (n : Z).

(** The attributes of an instance. *)
Record t : Type := mk {
  data : Np.ndarray;
  header : string;
  ntraces : Z;
  inlines : list Q;
  xlines : list Q;
  ninlines : Z;
  nxlines : Z;
  nsamples : Z;
  tstart : Q;
  dt : Q;
  tbasis : list Q
}.

(** Lines 37-42: [nsamples] follows the data when it was given, is not zero
    and differs from the last axis. *)
Definition resolve_nsamples (nsamples last_axis : Z) : Z * list message :=
  if negb (nsamples =? 0)%Z && negb (nsamples =? last_axis)%Z then
    let t := nsamples in
    let nsamples := last_axis in
    (nsamples, if negb (t =? nsamples)%Z then [Nsamples_changed nsamples] else [])
  else (nsamples, []).

(** Lines 46-48: [int(shape[0] / nxlines)] when only the crossline count is
    known. [int] of a true division truncates: [Z.quot]. *)
Definition resolve_ninlines (ninlines nxlines shape0 : Z) : Z :=
  if (ninlines =? 1)%Z then
    if (nxlines >? 0)%Z then (shape0 ÷ nxlines)%Z else ninlines
  else ninlines.

(** Lines 50-56: with more than one inline, [nxlines] is recomputed from the
    data, the change is printed when the new count is not zero, and the data
    are reshaped. Both counts are non-negative here, so the shape passed to
    [reshape] has no inferred (-1) axis. *)
Definition resolve_nxlines (d : Np.ndarray) (ninlines nxlines shape0 last_axis : Z)
  : Z * list message * result Np.ndarray :=
  if (ninlines >? 1)%Z then
    let x := nxlines in
    let nxlines := (shape0 ÷ ninlines)%Z in
    (nxlines,
     if negb (nxlines =? 0)%Z && negb (x =? nxlines)%Z
     then [Nxlines_changed nxlines] else [],
     Np.reshape d [Z.to_nat ninlines; Z.to_nat nxlines; Z.to_nat last_axis])
  else (nxlines, [], Ok d).

(** Lines 58-61: the coordinates of an axis, [1 .. n] when none were given. *)
Definition default_axis (given : option (list Q)) (n : Z) : result (list Q) :=
  match given with
  | Some l => Ok l
  | None => Np.linspace 1 (inject_Z n) n
  end.

(** [Seismic.__init__(data, params=params)]: the printed messages and the
    instance, or the exception that ends the construction. *)
Definition init (d : Np.ndarray) (params : Params) : list message * result t :=
  match Np.shape_first d, Np.shape_last d with
  | Ok shape0, Ok last_axis =>
      let shape0 := Z.of_nat shape0 in
      let last_axis := Z.of_nat last_axis in
      let header := get (p_header params) ""%string in
      let ntraces := get (p_ntraces params) shape0 in
      let ninlines := get (p_ninlines params) 1%Z in
      let nxlines := get (p_nxlines params) 0%Z in
      let nsamples := get (p_nsamples params) last_axis in
      let tstart := get (p_tstart params) 0 in
      let dt := get (p_dt params) 0 in
      let '(nsamples, log1) := resolve_nsamples nsamples last_axis in
      let ninlines := resolve_ninlines ninlines nxlines shape0 in
      let '(nxlines, log2, reshaped) :=
        resolve_nxlines d ninlines nxlines shape0 last_axis in
      (log1 ++ log2,
       d' <- reshaped ;;
       inlines <- default_axis (p_inlines params) ninlines ;;
       xlines <- default_axis (p_xlines params) nxlines ;;
       tbasis <- Np.arange 0 (inject_Z nsamples * dt) dt ;;
       Ok (mk d' header ntraces inlines xlines ninlines nxlines nsamples
              tstart dt tbasis))
  | _, _ => ([], Raise IndexError)
  end.

(** The properties [shape] and [ndim]. *)
Definition shape (s : t) : list nat := Np.shape (data s).
Definition ndim (s : t) : nat := Np.ndim (data s).

(** [str.lower] on ASCII and [s[0]]. *)
Definition lower_ascii (c : ascii) : ascii :=
  let n := nat_of_ascii c in
  if ((65 <=? n) && (n <=? 90))%nat then ascii_of_nat (n + 32) else c.

Fixpoint lower (s : string) : string :=
  match s with
  | EmptyString => EmptyString
  | String c s' => String (lower_ascii c) (lower s')
  end.

Definition first_char (s : string) : result ascii :=
  match s with
  | EmptyString => Raise IndexError
  | String c _ => Ok c
  end.

(** [trace_range(direction)]: for a direction in x the ends of [inlines] are
    evaluated as an expression statement and dropped; the ends of [xlines]
    are returned in every case. *)
Definition trace_range (s : t) (direction : string) : result (Q * Q) :=
  c <- first_char (lower direction) ;;
  _ <- (if Ascii.eqb c "x"%char
        then (a <- Np.first (inlines s) ;; b <- Np.last (inlines s) ;; Ok tt)
        else Ok tt) ;;
  a <- Np.first (xlines s) ;;
  b <- Np.last (xlines s) ;;
  Ok (a, b).

(** A line number as the caller writes it: an [int] or a [float]. *)
Inductive number : Type :=
| PyInt (z : Z)
| PyFloat (q : Q).

(** [l < 1] and [l *= n] for an [int] count [n]. *)
Definition lt_one (l : number) : bool :=
  match l with
  | PyInt z => (z <? 1)%Z
  | PyFloat q => Qltb q 1
  end.

Definition scale (l : number) (n : Z) : number :=
  match l with
  | PyInt z => PyInt (z * n)
  | PyFloat q => PyFloat (q * inject_Z n)
  end.

(** An array index must be an [int]: NumPy (1.12 and later) refuses a
    [float], also a whole one such as [2.0], with [IndexError]. *)
Definition as_index (n : nat) (l : number) : result nat :=
  match l with
  | PyInt z => Np.index n z
  | PyFloat _ => Raise IndexError
  end.

(** [a[i, :, :]] and [a[:, j, :]] on an array of three axes: the block of
    one index on the first axis, and of one index on the second axis for
    every index on the first. *)
Definition take_axis0 (a : Np.ndarray) (i : nat) : Np.ndarray :=
  let rest := tl (Np.shape a) in
  let m := Np.prod rest in
  Np.mk_ndarray rest (firstn m (skipn (i * m) (Np.flat a))).

Definition take_axis1 (a : Np.ndarray) (j : nat) : Np.ndarray :=
  let n0 := hd 0%nat (Np.shape a) in
  let n1 := hd 0%nat (tl (Np.shape a)) in
  let rest := tl (tl (Np.shape a)) in
  let m := Np.prod rest in
  Np.mk_ndarray (n0 :: rest)
    (flat_map (fun i => firstn m (skipn ((i * n1 + j) * m) (Np.flat a)))
              (seq 0 n0)).

(** [get_line(l, direction)]. *)
Definition get_line (s : t) (l : number) (direction : option string)
  : result Np.ndarray :=
  if (ndim s <? 3)%nat then Ok (data s)
  else
    inline <- match direction with
              | None => Ok true
              | Some dir => c <- first_char (lower dir) ;; Ok (Ascii.eqb c "i"%char)
              end ;;
    if (inline : bool) then
      let l := if lt_one l then scale l (ninlines s) else l in
      i <- as_index (hd 0%nat (shape s)) l ;;
      Ok (take_axis0 (data s) i)
    else
      let l := if lt_one l then scale l (nxlines s) else l in
      j <- as_index (hd 0%nat (tl (shape s))) l ;;
      Ok (take_axis1 (data s) j).

(** ** Geometry from the trace headers *)

(** [np.any(l)], [np.amax(l) - np.amin(l) + 1] and [params.get(k) or v]. *)
Definition any (l : list Z) : bool :=
  existsb (fun v => negb (v =? 0)%Z) l.

Definition span (l : list Z) : Z :=
  (fold_right Z.max (hd 0 l) l - fold_right Z.min (hd 0 l) l + 1)%Z.

Definition given_or (given : option Z) (derived : Z) : Z :=
  match given with
  | Some v => if (v =? 0)%Z then derived else v
  | None => derived
  end.

Definition given_or_list (given : option (list Q)) (derived : list Z) : list Q :=
  match given with
  | Some (x :: l) => x :: l
  | _ => map inject_Z derived
  end.

Definition set_xlines (params : Params) (xlines : list Z) : Params :=
  mk_params (p_header params) (p_ntraces params) (p_inlines params)
    (Some (given_or_list (p_xlines params) xlines))
    (p_ninlines params)
    (Some (given_or (p_nxlines params) (span xlines)))
    (p_nsamples params) (p_tstart params) (p_dt params).

Definition set_ninlines (params : Params) (ninlines : Z) : Params :=
  mk_params (p_header params) (p_ntraces params) (p_inlines params)
    (p_xlines params) (Some ninlines) (p_nxlines params)
    (p_nsamples params) (p_tstart params) (p_dt params).

Definition set_inlines (params : Params) (inlines : list Z) : Params :=
  mk_params (p_header params) (p_ntraces params)
    (Some (given_or_list (p_inlines params) inlines))
    (p_xlines params)
    (Some (given_or (p_ninlines params) (span inlines)))
    (p_nxlines params) (p_nsamples params) (p_tstart params) (p_dt params).

(** Lines 99-121 of [from_obspy]: the counts and coordinates written into
    [params] before the constructor is called. [sawtooth], [monotonic] and
    [stairstep] are what [utils.get_pattern_from_stream] finds in the
    headers for the three patterns. [ninlines] is set to 1 before the
    inline pattern is looked at, so that [params.get('ninlines')] is 1
    there. [from_obspy] ends by calling the constructor on the data with
    these [params], to which it has added [dt], the header text and three
    lists of header values. *)
Definition from_obspy_params (params : Params)
           (sawtooth monotonic stairstep : list Z) : Params :=
  let '(threed, params) :=
    if any sawtooth then (true, set_xlines params sawtooth)
    else if any monotonic then (false, set_xlines params monotonic)
    else (false, params) in
  let params := set_ninlines params 1 in
  if threed && any stairstep then set_inlines params stairstep else params.

(** ** The spectrum of a trace *)

Section Spectral.

(** [np.blackman(M)], [abs(np.fft.rfft(w))] and [np.log10(x)]. *)
Variable blackman : nat -> list Q.
Variable rfft_abs : list Q -> list Q.
Variable log10 : Q -> Q.

(** Element-wise product and conjunction of two arrays of one length. *)
Definition mul (u v : list Q) : list Q :=
  map (fun p => fst p * snd p) (combine u v).

Definition both (u v : list bool) : list bool :=
  map (fun p => fst p && snd p) (combine u v).

(** [mask.nonzero()]: the indices that hold [True]. *)
Fixpoint nonzero_from (i : nat) (mask : list bool) : list nat :=
  match mask with
  | [] => []
  | b :: mask' => if b then i :: nonzero_from (S i) mask'
                  else nonzero_from (S i) mask'
  end.

Definition nonzero (mask : list bool) : list nat := nonzero_from 0 mask.

(** [1 / x] on Python floats. *)
Definition inverse (x : Q) : result Q :=
  if Qeq_bool x 0 then Raise ZeroDivisionError else Ok (1 / x).

(** [np.fft.rfftfreq(n, d)]: the bins [0 .. n//2] times [1 / (n * d)]. *)
Definition rfftfreq (n : nat) (d : Q) : result (list Q) :=
  val <- inverse (of_nat n * d) ;;
  Ok (map (fun k => of_nat k * val) (seq 0 (n / 2 + 1))).

(** Line 147-148: decibels, shifted so that 20 dB under the maximum is 0. *)
Definition decibels (a : list Q) : list Q := map (fun x => 20 * log10 x) a.

Definition shifted (a : list Q) : result (list Q) :=
  let db := decibels a in
  m <- Np.amax db ;;
  Ok (map (fun x => x - m + 20) db).

(** Line 149: [((sig[1:] >= 0) & (sig[:-1] < 0)).nonzero()]. *)
Definition crossing_indices (sig : list Q) : list nat :=
  nonzero (both (map (fun x => Qleb 0 x) (tl sig))
                (map (fun x => Qltb x 0) (removelast sig))).

(** Line 150: [z - sig[z] / (sig[z+1] - sig[z])] for the indices found. *)
Definition crossing (sig : list Q) (z : nat) : Q :=
  of_nat z - nth z sig 0 / (nth (S z) sig 0 - nth z sig 0).

(** [np.arange(0, n)]. *)
Definition bins (n : nat) : list Q :=
  map of_nat (seq 0 n).

(** Lines 147-156 of [spectrum]: from the amplitudes [a] and the frequency
    axis [f] to [(f, a, f_min, f_max)]. *)
Definition band_edges (a f : list Q) : result (list Q * list Q * Q * Q) :=
  sig <- shifted a ;;
  let indices := crossing_indices sig in
  let crossings := map (crossing sig) indices in
  mi <- Np.amin crossings ;;
  ma <- Np.amax crossings ;;
  let x := bins (length f) in
  f_min <- Np.interp mi x f ;;
  f_max <- Np.interp ma x f ;;
  Ok (f, a, f_min, f_max).

(** [spectrum(signal, fs)]. The transform of an empty signal raises. *)
Definition spectrum (signal : list Q) (fs : Q)
  : result (list Q * list Q * Q * Q) :=
  let windowed := mul signal (blackman (length signal)) in
  a <- (match windowed with
        | [] => Raise ValueError
        | _ => Ok (rfft_abs windowed)
        end) ;;
  d <- inverse fs ;;
  f <- rfftfreq (length signal) d ;;
  band_edges a f.

(** ** The ensemble of [plot_spectrum] *)

(** What one turn of the loop appends to [specs], [peaks], [mis], [mas],
    with the [f] it leaves behind. *)
Record trace_stats : Type := mk_trace_stats {
  ts_f : list Q;
  ts_amp : list Q;
  ts_peak : Q;
  ts_min : Q;
  ts_max : Q
}.

(** What reaches the axes: the curve [ax.plot(f, db)] and the three numbers
    of the statistics text. *)
Record plot : Type := mk_plot {
  plot_f : list Q;
  plot_db : list Q;
  f_min : Q;
  f_peak : Q;
  f_max : Q
}.

(** [f[i]]. *)
Definition item (f : list Q) (i : nat) : result Q :=
  match nth_error f i with
  | Some x => Ok x
  | None => Raise IndexError
  end.

(** Lines 177-182: the peak of one spectrum, and what is appended. *)
Definition peak_of (r : list Q * list Q * Q * Q) : result trace_stats :=
  let '(f, amp, fmi, fma) := r in
  i <- Np.argmax amp ;;
  peak <- item f i ;;
  Ok (mk_trace_stats f amp peak fmi fma).

(** Lines 175-182, the loop body after the trace is selected. *)
Definition trace_spectrum (trace : list Q) (fs : Q) : result trace_stats :=
  r <- spectrum trace fs ;;
  peak_of r.

(** [np.squeeze(np.mean(np.dstack(specs), axis=-1))]: the element-wise mean
    of arrays of one length; no array, or two lengths, raise. *)
Fixpoint add_all (acc : list Q) (specs : list (list Q)) : result (list Q) :=
  match specs with
  | [] => Ok acc
  | sp :: specs' =>
      if (length sp =? length acc)%nat
      then add_all (map (fun p => fst p + snd p) (combine acc sp)) specs'
      else Raise ValueError
  end.

Definition mean_spectrum (specs : list (list Q)) : result (list Q) :=
  match specs with
  | [] => Raise ValueError
  | sp :: specs' =>
      total <- add_all sp specs' ;;
      Ok (map (fun x => x / of_nat (length specs)) total)
  end.

(** [db - np.amax(db)] for [db = 20 * np.log10(amp)]. *)
Definition normalised_db (amp : list Q) : result (list Q) :=
  let db := decibels amp in
  m <- Np.amax db ;;
  Ok (map (fun x => x - m) db).

(** Lines 184-190. [spec] is computed and goes unused: the curve is taken
    from [amp], which the loop left bound to the last trace's amplitudes,
    as [f] is. *)
Definition summarise (rs : list trace_stats) : result plot :=
  spec <- mean_spectrum (map ts_amp rs) ;;
  match rev rs with
  | [] => Raise ValueError
  | final :: _ =>
      let amp := ts_amp final in
      let f := ts_f final in
      db <- normalised_db amp ;;
      let f_peak := Np.mean (map ts_peak rs) in
      f_min <- Np.amin (map ts_min rs) ;;
      f_max <- Np.amax (map ts_max rs) ;;
      Ok (mk_plot f db f_min f_peak f_max)
  end.

(** [self.data[:, ti]] on data of two axes. *)
Definition column (d : Np.ndarray) (ti : Z) : result (list Q) :=
  match Np.shape d with
  | [] | [_] => Raise IndexError
  | [n0; n1] =>
      j <- Np.index n1 ti ;;
      Ok (map (fun i => nth (i * n1 + j) (Np.flat d) 0) (seq 0 n0))
  | _ => Raise Unmodelled
  end.

(** [plot_spectrum]: the numbers behind the figure. [trace_indices] is what
    [utils.get_trace_indices(self.data.shape[1], ntraces, random=True)]
    returned. With data of three axes [self.data[:, ti]] is not a trace
    any more; the embedding stops there. *)
Definition plot_spectrum (s : t) (trace_indices : list Z) : result plot :=
  _ <- match Np.shape (data s) with
       | [] | [_] => Raise IndexError
       | _ => Ok tt
       end ;;
  fs <- inverse (dt s) ;;
  rs <- mapM (fun ti => trace <- column (data s) ti ;; trace_spectrum trace fs)
             trace_indices ;;
  summarise rs.

End Spectral.

(** ** The end of the time basis, and what [from_obspy] prepares *)

(** The property [tend]: [np.amax(self.tbasis)]. *)
Definition tend (s : t) : result Q := Np.amax (tbasis s).

(** Lines 91-92 of [from_obspy]: [while dt > 0.02: dt *= 0.001]. Each turn
    divides by 1000, so [ceil(dt)] turns are more than the loop can take;
    [seconds_exits] shows that it has left by then. *)
Fixpoint seconds_loop (turns : nat) (dt : Q) : Q :=
  match turns with
  | O => dt
  | S turns' =>
      if Qltb (2 # 100) dt then seconds_loop turns' (dt * (1 # 1000)) else dt
  end.

Definition seconds (dt : Q) : Q :=
  seconds_loop (Z.to_nat (Qceiling dt)) dt.

(** Lines 88-94: [params['dt']], from the caller's [dt] or else from the
    sample interval of the binary file header. *)
Definition from_obspy_dt (params : Params) (sample_interval : Z) : Q :=
  seconds (get (p_dt params) (inject_Z sample_interval)).

(** Lines 123-124: the decoded textual header laid out as 40 rows of 80
    characters and joined with newlines; the reshape asks for exactly 3200
    characters. *)
Definition newline : string := String "010"%char EmptyString.

Definition header_rows (h : string) : list string :=
  map (fun r => substring (r * 80) 80 h) (seq 0 40).

Definition header_text (h : string) : result string :=
  if (String.length h =? 3200)%nat
  then Ok (String.concat newline (header_rows h))
  else Raise ValueError.

End Seismic.

(** ** Sample data *)

Module Sample.

(** [n] traces of [ns] samples, numbered [0, 1, 2, ...] in storage order. *)
Definition traces (n ns : nat) : Np.ndarray :=
  Np.mk_ndarray [n; ns] (map of_nat (seq 0 (n * ns))).

(** [params] with the two line counts and the start time, and [dt = 1]. *)
Definition counts (ninlines nxlines : option Z) (tstart : option Q)
  : Seismic.Params :=
  Seismic.mk_params None None None None ninlines nxlines None tstart (Some 1).

(** The volume of 4 inlines and 2 crosslines that [traces 8 1] and
    [ninlines = 4] construct. *)
Definition volume : Seismic.t :=
  Seismic.mk (Np.mk_ndarray [4; 2; 1]%nat [0; 1; 2; 3; 4; 5; 6; 7])
             "" 8 [3 # 3; 6 # 3; 9 # 3; 12 # 3] [1; 2] 4 2 1 0 1 [0].

(** [log10] on the powers of ten from 1/1000 to 1000, where it is an
    integer; no other value is asked of it below. *)
Definition log10 (x : Q) : Q :=
  if Qeq_bool x (1 # 1000) then -3
  else if Qeq_bool x (1 # 100) then -2
  else if Qeq_bool x (1 # 10) then -1
  else if Qeq_bool x 1 then 0
  else if Qeq_bool x 10 then 1
  else if Qeq_bool x 100 then 2
  else if Qeq_bool x 1000 then 3
  else 0.

(** Stand-ins for the window and the transform, to run the functions that
    call them: a window of ones, and the magnitudes of the first
    [n // 2 + 1] samples, which is the length [rfft] returns. *)
Definition blackman (M : nat) : list Q := repeat 1 M.

Definition rfft_abs (w : list Q) : list Q :=
  firstn (length w / 2 + 1) (map Qabs w).

(** An amplitude spectrum with one peak, 60 dB above its neighbours, and
    the frequency axis of four samples at [fs = 1]. *)
Definition one_peak : list Q := [1 # 1000; 1; 1 # 1000].
Definition axis : list Q := [0; 1 # 4; 1 # 2].

(** Two columns of four samples, [dt = 1]. *)
Definition section : Seismic.t :=
  Seismic.mk (Np.mk_ndarray [4; 2]%nat
                [1 # 1000; 1 # 100;
                 1;        10;
                 1 # 1000; 1;
                 0;        0])
             "" 4 [1] [] 1 0 2 0 1 [0; 1].

(** A textual header of 40 cards, card [r] made of 80 times the letter of
    rank [r] from A. *)
Fixpoint fill (n : nat) (c : ascii) (rest : string) : string :=
  match n with
  | O => rest
  | S n' => String c (fill n' c rest)
  end.

Definition header : string :=
  fold_right (fun r rest => fill 80 (ascii_of_nat (65 + r)) rest)
             EmptyString (seq 0 40).

End Sample.

(** ** The words of the specification *)

(** The shifted curve goes from negative to non-negative between the
    samples [z] and [z + 1]. *)
Definition is_crossing (sig : list Q) (z : nat) : Prop :=
  (S z < length sig)%nat /\ nth z sig 0 < 0 /\ 0 <= nth (S z) sig 0.

(** The fractional bin of the crossing at [z]. *)
Definition fractional_bin (sig : list Q) (z : nat) : Q :=
  of_nat z + (- nth z sig 0) / (nth (S z) sig 0 - nth z sig 0).

(** The frequency of the crossing at [z]: between [f[z]] and [f[z+1]], as
    far along as the fractional bin is between [z] and [z + 1]. *)
Definition crossing_frequency (f sig : list Q) (z : nat) : Q :=
  nth z f 0
  + (fractional_bin sig z - of_nat z) * (nth (S z) f 0 - nth z f 0).

(** A frequency axis that does not decrease. *)
Fixpoint ascending (l : list Q) : Prop :=
  match l with
  | x :: (y :: _) as l' => x <= y /\ ascending l'
  | _ => True
  end.

(** Sample points for [np.interp]: abscissae strictly increasing,
    ordinates not decreasing. *)
Fixpoint chain (p0 : Q * Q) (rest : list (Q * Q)) : Prop :=
  match rest with
  | [] => True
  | p1 :: rest' => fst p0 < fst p1 /\ snd p0 <= snd p1 /\ chain p1 rest'
  end.

(** The [k]-th trace of an array whose traces have [ns] samples. *)
Definition trace_of (ns : nat) (a : Np.ndarray) (k : nat) : list Q :=
  firstn ns (skipn (k * ns) (Np.flat a)).

(** The directions [get_line] reads along the inlines, no direction or
    one whose first letter is i or I, and the others that have a first
    letter. *)
Definition inline_direction (direction : option string) : Prop :=
  match direction with
  | None => True
  | Some EmptyString => False
  | Some (String c _) => Seismic.lower_ascii c = "i"%char
  end.

Definition xline_direction (direction : option string) : Prop :=
  match direction with
  | Some (String c _) => Seismic.lower_ascii c <> "i"%char
  | _ => False
  end.

(** One turn of the loop that brings [dt] to seconds. *)
Definition milli (x : Q) : Q := x * (1 # 1000).

(** * Properties *)

(** ** Comparisons *)

Lemma Qleb_le (x y : Q) : Qleb x y = true <-> x <= y.
Proof. apply Qle_bool_iff. Qed.

Lemma Qltb_lt (x y : Q) : Qltb x y = true <-> x < y.
Proof.
  unfold Qltb. rewrite negb_true_iff. split; intros H.
  - apply Qnot_le_lt. intros Hle. apply Qle_bool_iff in Hle. congruence.
  - destruct (Qle_bool y x) eqn:E; [|reflexivity].
    apply Qle_bool_iff in E. exfalso. apply (Qlt_not_le _ _ H E).
Qed.

Lemma Qltb_ge (x y : Q) : Qltb x y = false <-> y <= x.
Proof.
  unfold Qltb. rewrite negb_false_iff. apply Qle_bool_iff.
Qed.

Lemma Qleb_gt (x y : Q) : Qleb x y = false <-> y < x.
Proof.
  rewrite <- Qltb_lt. unfold Qltb, Qleb.
  destruct (Qle_bool x y); simpl; split; congruence.
Qed.

Lemma bind_ok {A B : Type} (c : result A) (k : A -> result B) (b : B) :
  bind c k = Ok b -> exists a, c = Ok a /\ k a = Ok b.
Proof. destruct c; simpl; intros H; [eauto | discriminate]. Qed.

(** ** The constructor *)

(** What a construction that succeeds went through. *)
Lemma init_inv d params log s :
  Seismic.init d params = (log, Ok s) ->
  exists n0 nl log1 log2,
    Np.shape_first d = Ok n0 /\ Np.shape_last d = Ok nl /\
    Seismic.resolve_nsamples
      (Seismic.get (Seismic.p_nsamples params) (Z.of_nat nl)) (Z.of_nat nl)
      = (Seismic.nsamples s, log1) /\
    Seismic.ninlines s =
      Seismic.resolve_ninlines (Seismic.get (Seismic.p_ninlines params) 1%Z)
        (Seismic.get (Seismic.p_nxlines params) 0%Z) (Z.of_nat n0) /\
    Seismic.resolve_nxlines d (Seismic.ninlines s)
      (Seismic.get (Seismic.p_nxlines params) 0%Z) (Z.of_nat n0) (Z.of_nat nl)
      = (Seismic.nxlines s, log2, Ok (Seismic.data s)) /\
    log = log1 ++ log2 /\
    Seismic.tstart s = Seismic.get (Seismic.p_tstart params) 0 /\
    Seismic.dt s = Seismic.get (Seismic.p_dt params) 0 /\
    Seismic.default_axis (Seismic.p_inlines params) (Seismic.ninlines s)
      = Ok (Seismic.inlines s) /\
    Seismic.default_axis (Seismic.p_xlines params) (Seismic.nxlines s)
      = Ok (Seismic.xlines s) /\
    Np.arange 0 (inject_Z (Seismic.nsamples s) * Seismic.dt s) (Seismic.dt s)
      = Ok (Seismic.tbasis s).
Proof.
  unfold Seismic.init.
  destruct (Np.shape_first d) as [n0|]; [|discriminate].
  destruct (Np.shape_last d) as [nl|]; [|discriminate].
  destruct (Seismic.resolve_nsamples _ _) as [ns log1] eqn:Hns.
  destruct (Seismic.resolve_nxlines _ _ _ _ _) as [[nx log2] r] eqn:Hnx.
  intros H. inversion H as [[Hlog Hr]]. clear H. symmetry in Hlog.
  apply bind_ok in Hr. destruct Hr as (d' & Hd & Hr). subst r.
  apply bind_ok in Hr. destruct Hr as (il & Hil & Hr).
  apply bind_ok in Hr. destruct Hr as (xl & Hxl & Hr).
  apply bind_ok in Hr. destruct Hr as (tb & Htb & Hr).
  inversion Hr. subst s. simpl.
  exists n0, nl, log1, log2. repeat split; auto.
Qed.

(** The first and last axis of data with two axes. *)
Lemma shape_two d n ns :
  Np.shape d = [n; ns] ->
  Np.shape_first d = Ok n /\ Np.shape_last d = Ok ns /\
  Np.size d = (n * ns)%nat.
Proof.
  intros H. unfold Np.shape_first, Np.shape_last, Np.size. rewrite H.
  simpl. repeat split; auto. lia.
Qed.

(** [reshape] to [(a, b, ns)] of [n * ns] elements, for a positive [ns],
    is decided by [a * b = n]. *)
Lemma reshape_two d n ns a b :
  Np.shape d = [n; ns] -> (0 < ns)%nat ->
  (a * b <> n)%nat -> Np.reshape d [a; b; ns] = Raise ValueError.
Proof.
  intros H Hns Hab. unfold Np.reshape.
  destruct (shape_two d n ns H) as (_ & _ & Hsz). rewrite Hsz. simpl.
  destruct (Nat.eqb_spec (a * (b * (ns * 1))) (n * ns)) as [E|E]; [|reflexivity].
  exfalso. apply Hab. nia.
Qed.

(** The sample volume and the sample section are constructed values. *)
Example volume_constructed :
  Seismic.init (Sample.traces 8 1) (Sample.counts (Some 4%Z) None None)
    = ([Seismic.Nxlines_changed 2], Ok Sample.volume) /\
  Seismic.init (Seismic.data Sample.section) (Sample.counts None None None)
    = ([], Ok Sample.section).
Proof. split; vm_compute; reflexivity. Qed.

(** C1, counterexample. Ten traces with [ninlines = 1] and [nxlines = 7]:
    the counts resolve to 1 and 7, whose product is not 10, and the
    construction succeeds without a message and without an exception. So
    does the construction with no counts at all, which resolve to 1 and 0. *)
Lemma init_unchecked_counts :
  (exists s,
     Seismic.init (Sample.traces 10 1) (Sample.counts (Some 1%Z) (Some 7%Z) None)
       = ([], Ok s) /\
     Seismic.ninlines s = 1%Z /\ Seismic.nxlines s = 7%Z /\
     (Seismic.ninlines s * Seismic.nxlines s <> 10)%Z /\
     Seismic.data s = Sample.traces 10 1) /\
  (exists s,
     Seismic.init (Sample.traces 10 1) (Sample.counts None None None)
       = ([], Ok s) /\
     Seismic.ninlines s = 1%Z /\ Seismic.nxlines s = 0%Z /\
     (Seismic.ninlines s * Seismic.nxlines s <> 10)%Z /\
     Seismic.data s = Sample.traces 10 1).
Proof.
  split; (eexists; split; [vm_compute; reflexivity|]);
    simpl; repeat split; try reflexivity; discriminate.
Qed.

(** C1, amended. For data of [n] traces of [ns > 0] samples whose resolved
    [ninlines] exceeds 1: when [ninlines * nxlines] is not [n] the
    construction ends in the [ValueError] of [reshape]; and a construction
    that succeeds has [ninlines * nxlines = n], the shape
    [(ninlines, nxlines, ns)] and every supplied element in its place. *)
Theorem init_reshape_exact d params n ns :
  Np.shape d = [n; ns] -> (0 < ns)%nat ->
  let nin := Seismic.resolve_ninlines
               (Seismic.get (Seismic.p_ninlines params) 1%Z)
               (Seismic.get (Seismic.p_nxlines params) 0%Z) (Z.of_nat n) in
  (1 < nin)%Z ->
  ((nin * (Z.of_nat n ÷ nin) <> Z.of_nat n)%Z ->
     snd (Seismic.init d params) = Raise ValueError) /\
  (forall log s, Seismic.init d params = (log, Ok s) ->
     (Seismic.ninlines s * Seismic.nxlines s = Z.of_nat n)%Z /\
     Np.shape (Seismic.data s) =
       [Z.to_nat (Seismic.ninlines s); Z.to_nat (Seismic.nxlines s); ns] /\
     Np.flat (Seismic.data s) = Np.flat d).
Proof.
  intros Hsh Hns nin Hnin.
  destruct (shape_two d n ns Hsh) as (Hf & Hl & Hsz).
  assert (Hq : (0 <= Z.of_nat n ÷ nin)%Z) by (apply Z.quot_pos; lia).
  split.
  - intros Hne. unfold Seismic.init. rewrite Hf, Hl.
    destruct (Seismic.resolve_nsamples _ _) as [nsm log1].
    fold nin. unfold Seismic.resolve_nxlines.
    replace (nin >? 1)%Z with true by (symmetry; apply Z.gtb_lt; lia).
    rewrite Nat2Z.id, (reshape_two d n ns); auto.
    intros E. apply Hne. lia.
  - intros log s H. apply init_inv in H.
    destruct H as (n0 & nl & log1 & log2 & Hf' & Hl' & _ & Hn & Hnx & _).
    rewrite Hf in Hf'. rewrite Hl in Hl'.
    inversion Hf'. inversion Hl'. subst n0 nl. fold nin in Hn.
    unfold Seismic.resolve_nxlines, Np.reshape in Hnx. rewrite Hn in *.
    replace (nin >? 1)%Z with true in Hnx by (symmetry; apply Z.gtb_lt; lia).
    rewrite Nat2Z.id, Hsz in Hnx. simpl in Hnx.
    destruct (Nat.eqb_spec (Z.to_nat nin * (Z.to_nat (Z.of_nat n ÷ nin) * (ns * 1)))
                           (n * ns)) as [E|E]; [|discriminate].
    inversion Hnx as [[Hx Hlog Hd]]. simpl. repeat split; auto.
    assert (E' : (Z.to_nat nin * Z.to_nat (Z.of_nat n ÷ nin) = n)%nat) by nia.
    lia.
Qed.

Lemma init_reshape_exact_witness :
  exists s,
    Seismic.init (Sample.traces 8 1) (Sample.counts (Some 4%Z) None None)
      = ([Seismic.Nxlines_changed 2], Ok s) /\
    (Seismic.ninlines s * Seismic.nxlines s = 8)%Z /\
    Np.flat (Seismic.data s) = Np.flat (Sample.traces 8 1).
Proof.
  eexists. split; [vm_compute; reflexivity|].
  assert (Hsh : Np.shape (Sample.traces 8 1) = [8; 1]%nat) by reflexivity.
  assert (Hns : (0 < 1)%nat) by lia.
  assert (Hnin : (1 < Seismic.resolve_ninlines
                        (Seismic.get (Seismic.p_ninlines
                           (Sample.counts (Some 4%Z) None None)) 1%Z)
                        (Seismic.get (Seismic.p_nxlines
                           (Sample.counts (Some 4%Z) None None)) 0%Z)
                        (Z.of_nat 8))%Z) by (vm_compute; reflexivity).
  destruct (init_reshape_exact (Sample.traces 8 1)
              (Sample.counts (Some 4%Z) None None) 8 1 Hsh Hns Hnin)
    as [_ Hok].
  destruct (Hok _ _ ltac:(vm_compute; reflexivity)) as (H1 & _ & H3).
  split; [exact H1 | exact H3].
Defined.

(** C7, counterexample. Two traces with [ninlines = 3]: [nxlines] resolves
    to [int(2 / 3) = 0], the reshape to [(3, 0, 1)] is attempted all the
    same, and the construction raises instead of keeping the data. *)
Lemma init_zero_nxlines_raises :
  Seismic.resolve_nxlines (Sample.traces 2 1) 3 0 2 1
    = (0%Z, [], Raise ValueError) /\
  Seismic.init (Sample.traces 2 1) (Sample.counts (Some 3%Z) None None)
    = ([], Raise ValueError).
Proof. split; vm_compute; reflexivity. Qed.

(** C7, amended. In every construction that succeeds the data are reshaped
    to [(ninlines, nxlines, shape[-1])] exactly when the resolved [ninlines]
    exceeds 1, whatever [nxlines] resolves to, and are the supplied array
    otherwise. *)
Theorem init_reshape_iff d params log s :
  Seismic.init d params = (log, Ok s) ->
  exists last_axis, Np.shape_last d = Ok last_axis /\
  ((1 < Seismic.ninlines s)%Z ->
     Np.reshape d [Z.to_nat (Seismic.ninlines s);
                   Z.to_nat (Seismic.nxlines s); last_axis]
       = Ok (Seismic.data s) /\
     Np.shape (Seismic.data s) =
       [Z.to_nat (Seismic.ninlines s); Z.to_nat (Seismic.nxlines s); last_axis]
     /\ Np.flat (Seismic.data s) = Np.flat d) /\
  ((Seismic.ninlines s <= 1)%Z -> Seismic.data s = d).
Proof.
  intros H. apply init_inv in H.
  destruct H as (n0 & nl & log1 & log2 & _ & Hl & _ & _ & Hnx & _).
  exists nl. split; [exact Hl|].
  unfold Seismic.resolve_nxlines in Hnx.
  destruct (Seismic.ninlines s >? 1)%Z eqn:E.
  - injection Hnx as Hx Hlog Hd. rewrite Hx, Nat2Z.id in Hd.
    split; [|lia]. intros _. split; [exact Hd|].
    unfold Np.reshape in Hd. destruct (_ =? _)%nat; [|discriminate].
    inversion Hd. simpl. auto.
  - inversion Hnx. split; [lia|]. auto.
Qed.

Lemma init_reshape_iff_witness :
  exists s last_axis,
    Seismic.init (Sample.traces 8 1) (Sample.counts (Some 4%Z) None None)
      = ([Seismic.Nxlines_changed 2], Ok s) /\
    Np.shape_last (Sample.traces 8 1) = Ok last_axis /\
    Np.shape (Seismic.data s) = [4; 2; 1]%nat.
Proof.
  eexists.
  destruct (init_reshape_iff (Sample.traces 8 1)
              (Sample.counts (Some 4%Z) None None) _ _
              ltac:(vm_compute; reflexivity)) as (la & Hla & Hre & _).
  exists la. split; [reflexivity|]. split; [exact Hla|].
  destruct (Hre ltac:(vm_compute; reflexivity)) as (_ & Hsh & _).
  inversion Hla. subst la. exact Hsh.
Defined.

(** C5, counterexample. Ten traces, the caller gives [ninlines = 3] and
    [nxlines = 5]: the counts that fit the data are 2 and 5, but [ninlines]
    stays 3, [nxlines] is changed to 3 with a message, and the construction
    raises. *)
Lemma init_explicit_ninlines_raises :
  Seismic.init (Sample.traces 10 1) (Sample.counts (Some 3%Z) (Some 5%Z) None)
    = ([Seismic.Nxlines_changed 3], Raise ValueError).
Proof. vm_compute. reflexivity. Qed.

(** In [from_obspy] a count the caller gives wins over the count read from
    the headers, and [ninlines] is handed over as 1 in every case. *)
Lemma from_obspy_explicit_nxlines params sawtooth monotonic stairstep v :
  Seismic.p_nxlines params = Some v -> v <> 0%Z ->
  let params' := Seismic.from_obspy_params params sawtooth monotonic stairstep in
  Seismic.p_nxlines params' = Some v /\ Seismic.p_ninlines params' = Some 1%Z.
Proof.
  intros Hv Hne. unfold Seismic.from_obspy_params.
  assert (Hg : forall derived, Seismic.given_or (Some v) derived = v).
  { intros derived. simpl. destruct (Z.eqb_spec v 0); [contradiction | reflexivity]. }
  destruct (Seismic.any sawtooth); [|destruct (Seismic.any monotonic)];
    simpl; try destruct (Seismic.any stairstep); simpl;
    rewrite ?Hv, ?Hg; auto.
Qed.

(** Ten traces whose headers run 1..5 twice, so that the headers give
    [nxlines = 5], and a caller who gives [nxlines = 3]: the caller's count
    is used, [ninlines] becomes [int(10 / 3) = 3], and the construction
    raises. *)
Example from_obspy_explicit_nxlines_raises :
  Seismic.span [1; 2; 3; 4; 5; 1; 2; 3; 4; 5]%Z = 5%Z /\
  Seismic.init (Sample.traces 10 1)
    (Seismic.from_obspy_params (Sample.counts None (Some 3%Z) None)
       [1; 2; 3; 4; 5; 1; 2; 3; 4; 5]%Z [] [1; 1; 1; 1; 1; 2; 2; 2; 2; 2]%Z)
    = ([], Raise ValueError).
Proof. split; vm_compute; reflexivity. Qed.

(** An explicit [ninlines] other than 1 is never replaced. *)
Lemma resolve_ninlines_explicit ninlines nxlines shape0 :
  ninlines <> 1%Z ->
  Seismic.resolve_ninlines ninlines nxlines shape0 = ninlines.
Proof.
  intros H. unfold Seismic.resolve_ninlines.
  destruct (Z.eqb_spec ninlines 1); [contradiction | reflexivity].
Qed.

(** [linspace] raises on a negative count only. *)
Lemma linspace_ok start stop num :
  (0 <= num)%Z -> exists l, Np.linspace start stop num = Ok l.
Proof.
  intros H. unfold Np.linspace.
  replace (num <? 0)%Z with false by (symmetry; apply Z.ltb_ge; lia).
  destruct (num =? 1)%Z; eauto.
Qed.

Lemma default_axis_ok given n :
  (0 <= n)%Z -> exists l, Seismic.default_axis given n = Ok l.
Proof.
  intros H. destruct given; simpl; [eauto | apply linspace_ok; exact H].
Qed.

(** C5, amended. With a resolved [ninlines] above 1 that divides the number
    of traces and a non-zero [dt], the construction succeeds: [nxlines]
    becomes [ntraces / ninlines] whatever the caller gave, with one message
    when the new count is not zero and differs from the caller's; the
    resolved [ninlines] is kept, and it is the caller's own whenever that
    is not 1. *)
Theorem init_nxlines_follows_data d params n ns :
  Np.shape d = [n; ns] ->
  let x := Seismic.get (Seismic.p_nxlines params) 0%Z in
  let nin := Seismic.resolve_ninlines
               (Seismic.get (Seismic.p_ninlines params) 1%Z) x (Z.of_nat n) in
  let nx := (Z.of_nat n ÷ nin)%Z in
  (1 < nin)%Z -> (nin * nx = Z.of_nat n)%Z ->
  Qeq_bool (Seismic.get (Seismic.p_dt params) 0) 0 = false ->
  exists s,
    Seismic.init d params
      = (snd (Seismic.resolve_nsamples
                (Seismic.get (Seismic.p_nsamples params) (Z.of_nat ns))
                (Z.of_nat ns))
         ++ (if negb (nx =? 0)%Z && negb (x =? nx)%Z
             then [Seismic.Nxlines_changed nx] else []),
         Ok s) /\
    Seismic.nxlines s = nx /\ Seismic.ninlines s = nin /\
    (Seismic.get (Seismic.p_ninlines params) 1%Z <> 1%Z ->
     Seismic.ninlines s = Seismic.get (Seismic.p_ninlines params) 1%Z).
Proof.
  intros Hsh x nin nx Hnin Hdiv Hdt.
  destruct (shape_two d n ns Hsh) as (Hf & Hl & Hsz).
  assert (Hq : (0 <= nx)%Z) by (apply Z.quot_pos; lia).
  unfold Seismic.init. rewrite Hf, Hl.
  destruct (Seismic.resolve_nsamples _ _) as [nsm log1]. simpl snd.
  fold x. fold nin. unfold Seismic.resolve_nxlines.
  replace (nin >? 1)%Z with true by (symmetry; apply Z.gtb_lt; lia).
  fold nx. unfold Np.reshape. rewrite Hsz, Nat2Z.id. simpl Np.prod.
  replace (Z.to_nat nin * (Z.to_nat nx * (ns * 1)) =? n * ns)%nat with true
    by (symmetry; apply Nat.eqb_eq; nia).
  simpl bind.
  destruct (default_axis_ok (Seismic.p_inlines params) nin ltac:(lia)) as [il Hil].
  destruct (default_axis_ok (Seismic.p_xlines params) nx Hq) as [xl Hxl].
  rewrite Hil, Hxl. simpl bind. unfold Np.arange. rewrite Hdt. simpl bind.
  eexists. split; [reflexivity|]. simpl. repeat split; auto.
  intros Hk. unfold nin. apply resolve_ninlines_explicit. exact Hk.
Qed.

Lemma init_nxlines_follows_data_witness :
  exists s,
    Seismic.init (Sample.traces 10 1) (Sample.counts (Some 2%Z) (Some 3%Z) None)
      = ([Seismic.Nxlines_changed 5], Ok s) /\
    Seismic.nxlines s = 5%Z /\ Seismic.ninlines s = 2%Z.
Proof.
  destruct (init_nxlines_follows_data (Sample.traces 10 1)
              (Sample.counts (Some 2%Z) (Some 3%Z) None) 10 1
              ltac:(reflexivity) ltac:(vm_compute; reflexivity)
              ltac:(vm_compute; reflexivity) ltac:(vm_compute; reflexivity))
    as (s & Hi & Hnx & Hnin & _).
  exists s. split; [exact Hi|]. split; [exact Hnx | exact Hnin].
Defined.

(** ** The time basis *)




(** C4. One trace of two samples with [tstart = 1] and [dt = 1]: the time
    basis is [0, 1]; its first entry is 0, not [tstart]. *)
Example tbasis_ignores_tstart :
  exists s,
    Seismic.init (Sample.traces 1 2) (Sample.counts None None (Some 1))
      = ([], Ok s) /\
    Seismic.tstart s = 1 /\ Seismic.dt s = 1 /\ Seismic.nsamples s = 2%Z /\
    Seismic.tbasis s = [0; 1].
Proof. eexists. split; [vm_compute; reflexivity|]. simpl. auto. Qed.

(** ** Line ranges and lines *)

Lemma first_char_lower c rest :
  Seismic.first_char (Seismic.lower (String c rest)) = Ok (Seismic.lower_ascii c).
Proof. reflexivity. Qed.

Lemma last_ok (l : list Q) : l <> [] -> exists x, Np.last l = Ok x.
Proof.
  intros H. unfold Np.last. destruct (rev l) eqn:E; [|eauto].
  exfalso. apply H. rewrite <- (rev_involutive l), E. reflexivity.
Qed.

Lemma first_ok (l : list Q) : l <> [] -> exists x, Np.first l = Ok x.
Proof. destruct l; [contradiction | simpl; eauto]. Qed.

(** C10. With coordinates on both axes, [trace_range] returns the two ends
    of [xlines] for every non-empty direction: the ends of [inlines] that a
    direction in x evaluates are dropped. *)
Theorem trace_range_returns_xlines s direction x0 xl :
  direction <> ""%string ->
  Seismic.inlines s <> [] ->
  Np.first (Seismic.xlines s) = Ok x0 ->
  Np.last (Seismic.xlines s) = Ok xl ->
  Seismic.trace_range s direction = Ok (x0, xl).
Proof.
  intros Hd Hi Hf Hl. destruct direction as [|c rest]; [contradiction|].
  unfold Seismic.trace_range. rewrite first_char_lower. simpl bind.
  destruct (first_ok _ Hi) as [a Ha]. destruct (last_ok _ Hi) as [b Hb].
  rewrite Ha, Hb, Hf, Hl.
  destruct (Ascii.eqb (Seismic.lower_ascii c) "x"); reflexivity.
Qed.

Lemma trace_range_returns_xlines_witness :
  Seismic.trace_range Sample.volume "inline" = Ok (1, 2) /\
  Seismic.trace_range Sample.volume "xline" = Ok (1, 2).
Proof.
  split;
    apply (trace_range_returns_xlines Sample.volume);
    solve [discriminate | reflexivity].
Defined.

(** A direction that does not start with x does not look at [inlines]. *)
Lemma trace_range_inline s c rest x0 xl :
  Ascii.eqb (Seismic.lower_ascii c) "x" = false ->
  Np.first (Seismic.xlines s) = Ok x0 ->
  Np.last (Seismic.xlines s) = Ok xl ->
  Seismic.trace_range s (String c rest) = Ok (x0, xl).
Proof.
  intros Hc Hf Hl. unfold Seismic.trace_range.
  rewrite first_char_lower. simpl bind. rewrite Hc, Hf, Hl. reflexivity.
Qed.

(** C6. On a volume, a line number given as a float ends in [IndexError]
    for every direction: [l *= n] leaves a float, and a float is not an
    index. So does [l = 0.5]. *)
Theorem get_line_float_raises s q direction :
  (3 <= Seismic.ndim s)%nat ->
  Seismic.get_line s (Seismic.PyFloat q) direction = Raise IndexError.
Proof.
  intros H. unfold Seismic.get_line.
  replace (Seismic.ndim s <? 3)%nat with false
    by (symmetry; apply Nat.ltb_ge; exact H).
  destruct direction as [dir|]; simpl.
  - destruct dir as [|c rest]; [reflexivity|]. simpl.
    destruct (Ascii.eqb (Seismic.lower_ascii c) "i"); simpl;
      destruct (Qltb q 1); reflexivity.
  - destruct (Qltb q 1); reflexivity.
Qed.

Lemma get_line_float_raises_witness :
  (3 <= Seismic.ndim Sample.volume)%nat /\
  Seismic.get_line Sample.volume (Seismic.PyFloat (1 # 2)) (Some "i"%string)
    = Raise IndexError.
Proof.
  split; [vm_compute; lia|].
  apply (get_line_float_raises Sample.volume (1 # 2) (Some "i"%string)).
  vm_compute. lia.
Defined.

(** An [int] from 1 up to the axis length is the 0-based position of the
    line that is returned. *)
Lemma get_line_int_inline s l n0 rest :
  Seismic.shape s = n0 :: rest -> (2 <= length rest)%nat ->
  (1 <= l < Z.of_nat n0)%Z ->
  Seismic.get_line s (Seismic.PyInt l) (Some "i"%string)
    = Ok (Seismic.take_axis0 (Seismic.data s) (Z.to_nat l)).
Proof.
  intros Hsh Hr Hl. unfold Seismic.get_line, Seismic.ndim, Np.ndim.
  unfold Seismic.shape in Hsh. rewrite Hsh. simpl length.
  replace (S (length rest) <? 3)%nat with false
    by (symmetry; apply Nat.ltb_ge; lia).
  simpl. unfold Seismic.shape. rewrite Hsh. simpl.
  replace (l <? 1)%Z with false by (symmetry; apply Z.ltb_ge; lia).
  simpl. unfold Np.index.
  replace ((0 <=? l)%Z && (l <? Z.of_nat n0)%Z) with true; [reflexivity|].
  symmetry. apply andb_true_iff. split; [apply Z.leb_le | apply Z.ltb_lt]; lia.
Qed.

Example get_line_int_example :
  Seismic.get_line Sample.volume (Seismic.PyInt 2) (Some "i"%string)
    = Ok (Np.mk_ndarray [2; 1]%nat [4; 5]) /\
  Seismic.get_line Sample.volume (Seismic.PyInt 1) (Some "x"%string)
    = Ok (Np.mk_ndarray [4; 1]%nat [1; 3; 5; 7]) /\
  Seismic.get_line Sample.volume (Seismic.PyInt 4) (Some "i"%string)
    = Raise IndexError.
Proof. repeat split; vm_compute; reflexivity. Qed.

(** ** Minimum, maximum and interpolation *)

Lemma Qmin_cases x y : (Np.Qmin x y = x /\ x <= y) \/ (Np.Qmin x y = y /\ y <= x).
Proof.
  unfold Np.Qmin. destruct (Qleb x y) eqn:E.
  - left. split; [reflexivity | apply Qleb_le; exact E].
  - right. split; [reflexivity | apply Qlt_le_weak, Qleb_gt; exact E].
Qed.

Lemma Qmax_cases x y : (Np.Qmax x y = y /\ x <= y) \/ (Np.Qmax x y = x /\ y <= x).
Proof.
  unfold Np.Qmax. destruct (Qleb x y) eqn:E.
  - left. split; [reflexivity | apply Qleb_le; exact E].
  - right. split; [reflexivity | apply Qlt_le_weak, Qleb_gt; exact E].
Qed.

Lemma fold_min_spec l : forall x,
  In (fold_left Np.Qmin l x) (x :: l) /\
  forall y, In y (x :: l) -> fold_left Np.Qmin l x <= y.
Proof.
  induction l as [|a l IH]; intros x; simpl.
  - split; [auto|]. intros y [<-|[]]. apply Qle_refl.
  - destruct (IH (Np.Qmin x a)) as [Hin Hle]. split.
    + destruct Hin as [Hin|Hin]; [|auto].
      rewrite <- Hin.
      destruct (Qmin_cases x a) as [[E _]|[E _]]; rewrite E; auto.
    + intros y Hy.
      assert (Hm : fold_left Np.Qmin l (Np.Qmin x a) <= Np.Qmin x a)
        by (apply Hle; left; reflexivity).
      destruct Hy as [<-|[<-|Hy]].
      * eapply Qle_trans; [exact Hm|].
        destruct (Qmin_cases x a) as [[E H]|[E H]]; rewrite E; [apply Qle_refl|exact H].
      * eapply Qle_trans; [exact Hm|].
        destruct (Qmin_cases x a) as [[E H]|[E H]]; rewrite E; [exact H|apply Qle_refl].
      * apply Hle. right. exact Hy.
Qed.

Lemma fold_max_spec l : forall x,
  In (fold_left Np.Qmax l x) (x :: l) /\
  forall y, In y (x :: l) -> y <= fold_left Np.Qmax l x.
Proof.
  induction l as [|a l IH]; intros x; simpl.
  - split; [auto|]. intros y [<-|[]]. apply Qle_refl.
  - destruct (IH (Np.Qmax x a)) as [Hin Hle]. split.
    + destruct Hin as [Hin|Hin]; [|auto].
      rewrite <- Hin.
      destruct (Qmax_cases x a) as [[E _]|[E _]]; rewrite E; auto.
    + intros y Hy.
      assert (Hm : Np.Qmax x a <= fold_left Np.Qmax l (Np.Qmax x a))
        by (apply Hle; left; reflexivity).
      destruct Hy as [<-|[<-|Hy]].
      * eapply Qle_trans; [|exact Hm].
        destruct (Qmax_cases x a) as [[E H]|[E H]]; rewrite E; [exact H|apply Qle_refl].
      * eapply Qle_trans; [|exact Hm].
        destruct (Qmax_cases x a) as [[E H]|[E H]]; rewrite E; [apply Qle_refl|exact H].
      * apply Hle. right. exact Hy.
Qed.

Lemma amin_spec l m :
  Np.amin l = Ok m -> In m l /\ forall y, In y l -> m <= y.
Proof.
  destruct l as [|x l]; simpl; intros H; inversion H. apply fold_min_spec.
Qed.

Lemma amax_spec l m :
  Np.amax l = Ok m -> In m l /\ forall y, In y l -> y <= m.
Proof.
  destruct l as [|x l]; simpl; intros H; inversion H. apply fold_max_spec.
Qed.

Lemma amin_ok l : l <> [] -> exists m, Np.amin l = Ok m.
Proof. destruct l; [contradiction | simpl; eauto]. Qed.

Lemma amax_ok l : l <> [] -> exists m, Np.amax l = Ok m.
Proof. destruct l; [contradiction | simpl; eauto]. Qed.

Lemma nonzero_from_crossings sig : forall i z,
  In z (Seismic.nonzero_from i
          (Seismic.both (map (fun x => Qleb 0 x) (tl sig))
                        (map (fun x => Qltb x 0) (removelast sig)))) <->
  exists k, z = (i + k)%nat /\ is_crossing sig k.
Proof.
  induction sig as [|x sig IH]; intros i z.
  - simpl. split; [tauto|]. intros (k & _ & H & _). simpl in H. lia.
  - destruct sig as [|y rest].
    + simpl. split; [tauto|]. intros (k & _ & H & _). simpl in H. lia.
    + change (tl (x :: y :: rest)) with (y :: rest).
      change (removelast (x :: y :: rest)) with (x :: removelast (y :: rest)).
      change (y :: rest) with (y :: tl (y :: rest)) at 1.
      cbn [map Seismic.both combine fst snd Seismic.nonzero_from].
      specialize (IH (S i) z).
      assert (Hhere : Qleb 0 y && Qltb x 0 = true <-> is_crossing (x :: y :: rest) 0).
      { unfold is_crossing. simpl. rewrite andb_true_iff, Qleb_le, Qltb_lt.
        split; [intros [? ?]; repeat split; auto; lia | tauto]. }
      assert (Hnext : forall k, is_crossing (x :: y :: rest) (S k) <-> is_crossing (y :: rest) k).
      { intros k. unfold is_crossing. simpl. split; intros (? & ? & ?); repeat split; auto; lia. }
      destruct (Qleb 0 y && Qltb x 0) eqn:E.
      * simpl. rewrite IH. split.
        -- intros [<-|(k & -> & Hk)].
           ++ exists 0%nat. split; [lia|]. apply Hhere. reflexivity.
           ++ exists (S k). split; [lia|]. apply Hnext. exact Hk.
        -- intros (k & -> & Hk). destruct k as [|k].
           ++ left. lia.
           ++ right. exists k. split; [lia|]. apply Hnext. exact Hk.
      * rewrite IH. split.
        -- intros (k & -> & Hk). exists (S k). split; [lia|]. apply Hnext. exact Hk.
        -- intros (k & -> & Hk). destruct k as [|k].
           ++ apply Hhere in Hk. discriminate.
           ++ exists k. split; [lia|]. apply Hnext. exact Hk.
Qed.

Lemma crossing_indices_spec sig z :
  In z (Seismic.crossing_indices sig) <-> is_crossing sig z.
Proof.
  unfold Seismic.crossing_indices, Seismic.nonzero.
  rewrite nonzero_from_crossings. split.
  - intros (k & -> & H). exact H.
  - intros H. exists z. split; [reflexivity | exact H].
Qed.

Lemma slope_nonneg x0 y0 x1 y1 :
  x0 < x1 -> y0 <= y1 -> 0 <= (y1 - y0) / (x1 - x0).
Proof.
  intros Hx Hy. apply Qle_shift_div_l; lra.
Qed.

Lemma segment_lower x0 y0 x1 y1 x :
  x0 < x1 -> y0 <= y1 -> x0 <= x ->
  y0 <= (y1 - y0) / (x1 - x0) * (x - x0) + y0.
Proof.
  intros Hx Hy Hle.
  pose proof (slope_nonneg x0 y0 x1 y1 Hx Hy) as Hs.
  assert (H : 0 <= (y1 - y0) / (x1 - x0) * (x - x0))
    by (apply Qmult_le_0_compat; lra).
  lra.
Qed.

Lemma segment_upper x0 y0 x1 y1 x :
  x0 < x1 -> y0 <= y1 -> x <= x1 ->
  (y1 - y0) / (x1 - x0) * (x - x0) + y0 <= y1.
Proof.
  intros Hx Hy Hle.
  pose proof (slope_nonneg x0 y0 x1 y1 Hx Hy) as Hs.
  assert (E : (y1 - y0) / (x1 - x0) * (x1 - x0) == y1 - y0) by (field; lra).
  assert (H : (y1 - y0) / (x1 - x0) * (x - x0) <= (y1 - y0) / (x1 - x0) * (x1 - x0)).
  { rewrite !(Qmult_comm ((y1 - y0) / (x1 - x0))).
    apply Qmult_le_compat_r; lra. }
  lra.
Qed.

Lemma segment_mono x0 y0 x1 y1 x y :
  x0 < x1 -> y0 <= y1 -> x <= y ->
  (y1 - y0) / (x1 - x0) * (x - x0) + y0 <= (y1 - y0) / (x1 - x0) * (y - x0) + y0.
Proof.
  intros Hx Hy Hle.
  pose proof (slope_nonneg x0 y0 x1 y1 Hx Hy) as Hs.
  assert (H : (y1 - y0) / (x1 - x0) * (x - x0) <= (y1 - y0) / (x1 - x0) * (y - x0)).
  { rewrite !(Qmult_comm ((y1 - y0) / (x1 - x0))).
    apply Qmult_le_compat_r; lra. }
  lra.
Qed.

Lemma interp_from_lower rest : forall p0 x,
  chain p0 rest -> fst p0 <= x -> snd p0 <= Np.interp_from x p0 rest.
Proof.
  induction rest as [|p1 rest IH]; intros p0 x Hc Hx; simpl.
  - apply Qle_refl.
  - destruct Hc as (H01 & Hy & Hc). destruct (Qltb x (fst p1)) eqn:E.
    + apply segment_lower; assumption.
    + apply Qltb_ge in E. eapply Qle_trans; [exact Hy|]. apply IH; assumption.
Qed.

Lemma interp_from_mono rest : forall p0 x y,
  chain p0 rest -> fst p0 <= x -> x <= y ->
  Np.interp_from x p0 rest <= Np.interp_from y p0 rest.
Proof.
  induction rest as [|p1 rest IH]; intros p0 x y Hc Hx Hxy; simpl.
  - apply Qle_refl.
  - destruct Hc as (H01 & Hy & Hc).
    destruct (Qltb x (fst p1)) eqn:Ex; destruct (Qltb y (fst p1)) eqn:Ey.
    + apply segment_mono; assumption.
    + apply Qltb_lt in Ex. apply Qltb_ge in Ey.
      eapply Qle_trans; [apply segment_upper; [assumption..|lra]|].
      apply interp_from_lower; assumption.
    + apply Qltb_ge in Ex. apply Qltb_lt in Ey. lra.
    + apply Qltb_ge in Ex. apply IH; assumption.
Qed.

Lemma chain_fst_le rest : forall p0 k p,
  chain p0 rest -> nth_error (p0 :: rest) k = Some p -> fst p0 <= fst p.
Proof.
  induction rest as [|p1 rest IH]; intros p0 k p Hc Hk.
  - destruct k as [|[|k]]; simpl in Hk; inversion Hk. apply Qle_refl.
  - destruct Hc as (H01 & _ & Hc). destruct k as [|k]; simpl in Hk.
    + inversion Hk. apply Qle_refl.
    + apply Qle_trans with (fst p1); [lra|]. apply (IH p1 k p Hc Hk).
Qed.

(** Between two neighbouring sample points the value is on their chord. *)
Lemma interp_from_segment rest : forall p0 k a fa b fb x,
  chain p0 rest ->
  nth_error (p0 :: rest) k = Some (a, fa) ->
  nth_error (p0 :: rest) (S k) = Some (b, fb) ->
  a <= x -> x <= b ->
  Np.interp_from x p0 rest == fa + (fb - fa) / (b - a) * (x - a).
Proof.
  induction rest as [|p1 rest IH]; intros p0 k a fa b fb x Hc Ha Hb Hax Hxb.
  - destruct k; simpl in Hb; [discriminate | destruct k; discriminate].
  - destruct Hc as (H01 & Hy & Hc). destruct k as [|k].
    + simpl in Ha, Hb. inversion Ha. inversion Hb. subst p0 p1. simpl in *.
      destruct (Qltb x b) eqn:E.
      * ring.
      * apply Qltb_ge in E. assert (Ex : x == b) by lra.
        assert (Eb : fa + (fb - fa) / (b - a) * (x - a) == fb).
        { rewrite Ex. field. lra. }
        rewrite Eb. destruct rest as [|p2 rest]; simpl; [reflexivity|].
        destruct Hc as (H12 & _ & _). simpl in H12.
        replace (Qltb x (fst p2)) with true
          by (symmetry; apply Qltb_lt; lra).
        rewrite Ex. field. lra.
    + simpl in Ha. change (nth_error (p0 :: p1 :: rest) (S (S k)))
        with (nth_error (p1 :: rest) (S k)) in Hb.
      pose proof (chain_fst_le rest p1 k (a, fa) Hc Ha) as Hle. simpl in Hle.
      simpl. replace (Qltb x (fst p1)) with false
        by (symmetry; apply Qltb_ge; lra).
      apply (IH p1 k a fa b fb x Hc Ha Hb Hax Hxb).
Qed.

Lemma of_nat_S k : of_nat (S k) == of_nat k + 1.
Proof.
  unfold of_nat. rewrite Nat2Z.inj_succ. unfold Z.succ.
  rewrite inject_Z_plus. reflexivity.
Qed.

Lemma of_nat_lt_S k : of_nat k < of_nat (S k).
Proof. rewrite of_nat_S. lra. Qed.

Lemma chain_points f : forall k y,
  ascending (y :: f) ->
  chain (of_nat k, y) (combine (map of_nat (seq (S k) (length f))) f).
Proof.
  induction f as [|y' f IH]; intros k y Ha; simpl; [exact I|].
  destruct Ha as [Hy Ha]. repeat split.
  - simpl. apply of_nat_lt_S.
  - exact Hy.
  - apply IH. exact Ha.
Qed.

Lemma nth_error_points f : forall k i,
  (i < length f)%nat ->
  nth_error (combine (map of_nat (seq k (length f))) f) i
    = Some (of_nat (k + i), nth i f 0).
Proof.
  induction f as [|y f IH]; intros k i Hi; simpl in Hi; [lia|].
  destruct i as [|i]; simpl.
  - rewrite Nat.add_0_r. reflexivity.
  - rewrite IH by lia. rewrite Nat.add_succ_r. reflexivity.
Qed.

Lemma length_bins n : length (Seismic.bins n) = n.
Proof. unfold Seismic.bins. rewrite length_map, length_seq. reflexivity. Qed.

Lemma interp_bins_unfold x y f :
  Np.interp x (Seismic.bins (length (y :: f))) (y :: f)
  = if Qltb x (of_nat 0) then Ok y
    else Ok (Np.interp_from x (of_nat 0, y)
               (combine (map of_nat (seq 1 (length f))) f)).
Proof.
  unfold Np.interp. rewrite length_bins, Nat.eqb_refl. reflexivity.
Qed.

Lemma interp_bins_ok x f :
  f <> [] -> exists u, Np.interp x (Seismic.bins (length f)) f = Ok u.
Proof.
  destruct f as [|y f]; [contradiction|]. intros _.
  rewrite interp_bins_unfold. destruct (Qltb x (of_nat 0)); eauto.
Qed.

Lemma interp_bins_mono f x y u v :
  ascending f -> x <= y ->
  Np.interp x (Seismic.bins (length f)) f = Ok u ->
  Np.interp y (Seismic.bins (length f)) f = Ok v ->
  u <= v.
Proof.
  intros Ha Hxy. destruct f as [|y0 f]; [discriminate|].
  rewrite !interp_bins_unfold.
  pose proof (chain_points f 0 y0 Ha) as Hc.
  destruct (Qltb x (of_nat 0)) eqn:Ex; destruct (Qltb y (of_nat 0)) eqn:Ey;
    intros Hu Hv; inversion Hu; inversion Hv; subst u v.
  - apply Qle_refl.
  - apply Qltb_ge in Ey.
    apply (interp_from_lower _ (of_nat 0, y0) y Hc Ey).
  - apply Qltb_ge in Ex. apply Qltb_lt in Ey. lra.
  - apply Qltb_ge in Ex. apply interp_from_mono; assumption.
Qed.

Lemma of_nat_nonneg k : 0 <= of_nat k.
Proof.
  unfold of_nat. replace 0 with (inject_Z 0) by reflexivity.
  rewrite <- Zle_Qle. lia.
Qed.

Lemma interp_bins_segment f z x u :
  ascending f -> (S z < length f)%nat ->
  of_nat z <= x -> x <= of_nat (S z) ->
  Np.interp x (Seismic.bins (length f)) f = Ok u ->
  u == nth z f 0 + (x - of_nat z) * (nth (S z) f 0 - nth z f 0).
Proof.
  intros Ha Hz Hzx Hxz. destruct f as [|y0 f]; [simpl in Hz; lia|].
  rewrite interp_bins_unfold.
  pose proof (chain_points f 0 y0 Ha) as Hc.
  pose proof (of_nat_nonneg z) as Hz0.
  replace (Qltb x (of_nat 0)) with false
    by (symmetry; apply Qltb_ge; change (of_nat 0) with 0; lra).
  intros Hu. inversion Hu. subst u. clear Hu.
  assert (Hp : forall i, (i < length (y0 :: f))%nat ->
     nth_error ((of_nat 0, y0) :: combine (map of_nat (seq 1 (length f))) f) i
       = Some (of_nat i, nth i (y0 :: f) 0)).
  { intros i Hi. apply (nth_error_points (y0 :: f) 0 i Hi). }
  rewrite (interp_from_segment _ (of_nat 0, y0) z (of_nat z) (nth z (y0 :: f) 0)
             (of_nat (S z)) (nth (S z) (y0 :: f) 0) x Hc
             (Hp z ltac:(lia)) (Hp (S z) Hz) Hzx Hxz).
  rewrite of_nat_S. field. lra.
Qed.

Lemma crossing_bounds sig z :
  is_crossing sig z ->
  of_nat z <= Seismic.crossing sig z /\ Seismic.crossing sig z <= of_nat (S z).
Proof.
  intros (_ & Hneg & Hpos). unfold Seismic.crossing. fold (of_nat z).
  set (s0 := nth z sig 0) in *. set (s1 := nth (S z) sig 0) in *.
  assert (Hd : 0 < s1 - s0) by lra.
  assert (H0 : s0 / (s1 - s0) <= 0).
  { apply Qle_shift_div_r; lra. }
  assert (H1 : -1 <= s0 / (s1 - s0)).
  { apply Qle_shift_div_l; lra. }
  rewrite of_nat_S. split; lra.
Qed.

(** ** The band edges of one spectrum *)

Lemma shifted_inv log10 a sig :
  Seismic.shifted log10 a = Ok sig ->
  exists m, Np.amax (Seismic.decibels log10 a) = Ok m /\
            sig = map (fun x => x - m + 20) (Seismic.decibels log10 a).
Proof.
  unfold Seismic.shifted. intros H. apply bind_ok in H.
  destruct H as (m & Hm & H). inversion H. eauto.
Qed.

Lemma shifted_length log10 a sig :
  Seismic.shifted log10 a = Ok sig -> length sig = length a.
Proof.
  intros H. apply shifted_inv in H. destruct H as (m & _ & ->).
  unfold Seismic.decibels. rewrite !length_map. reflexivity.
Qed.

(** [shifted] raises on an empty spectrum only, with [ValueError]. *)
Lemma shifted_raise log10 a e :
  Seismic.shifted log10 a = Raise e -> e = ValueError.
Proof.
  unfold Seismic.shifted, Seismic.decibels.
  destruct a; simpl; intros H; inversion H. reflexivity.
Qed.

(** Without a crossing [np.amin] is asked for the minimum of nothing, and
    raises. *)
Lemma band_edges_no_crossing log10 a f :
  (forall sig z, Seismic.shifted log10 a = Ok sig -> ~ is_crossing sig z) ->
  Seismic.band_edges log10 a f = Raise ValueError.
Proof.
  intros H. unfold Seismic.band_edges.
  destruct (Seismic.shifted log10 a) as [sig|e] eqn:Hs; simpl.
  - destruct (Seismic.crossing_indices sig) as [|z idx] eqn:Hi; [reflexivity|].
    exfalso. apply (H sig z eq_refl). apply crossing_indices_spec.
    rewrite Hi. left. reflexivity.
  - rewrite (shifted_raise _ _ _ Hs). reflexivity.
Qed.

(** A flat spectrum, all samples equal, has no crossing: its shifted curve
    is 20 everywhere. *)
Lemma flat_no_crossing log10 c n sig z :
  Seismic.shifted log10 (repeat c n) = Ok sig -> ~ is_crossing sig z.
Proof.
  intros H (Hz & Hneg & _). apply shifted_inv in H.
  destruct H as (m & Hm & ->).
  assert (Hdb : Seismic.decibels log10 (repeat c n) = repeat (20 * log10 c) n).
  { unfold Seismic.decibels.
    exact (map_repeat c n (fun x => 20 * log10 x)). }
  rewrite Hdb in *. rewrite length_map, repeat_length in Hz.
  apply amax_spec in Hm. destruct Hm as [Hin _].
  apply repeat_spec in Hin. subst m.
  rewrite (map_repeat (20 * log10 c) n (fun x => x - 20 * log10 c + 20)) in Hneg.
  rewrite nth_repeat_lt in Hneg by lia. lra.
Qed.

Lemma band_edges_flat log10 c n f :
  Seismic.band_edges log10 (repeat c n) f = Raise ValueError.
Proof.
  apply band_edges_no_crossing. intros sig z. apply flat_no_crossing.
Qed.

(** C2. A trace whose spectrum never goes from under the threshold to the
    threshold or above, a flat spectrum for one, has no band edges:
    [spectrum] raises, and returns no range. *)
Theorem spectrum_no_crossing blackman rfft_abs log10 signal fs :
  (forall sig z,
     Seismic.shifted log10
       (rfft_abs (Seismic.mul signal (blackman (length signal)))) = Ok sig ->
     ~ is_crossing sig z) ->
  exists e, Seismic.spectrum blackman rfft_abs log10 signal fs = Raise e.
Proof.
  intros H. unfold Seismic.spectrum.
  destruct (Seismic.mul signal (blackman (length signal))) as [|w0 w] eqn:Hw;
    [simpl; eauto|].
  simpl bind. destruct (Seismic.inverse fs) as [d|e]; [|simpl; eauto].
  simpl bind. destruct (Seismic.rfftfreq (length signal) d) as [f|e];
    [|simpl; eauto].
  simpl bind. exists ValueError. apply band_edges_no_crossing. exact H.
Qed.

Lemma spectrum_no_crossing_witness :
  Seismic.spectrum Sample.blackman Sample.rfft_abs Sample.log10 [1; 1; 1; 1] 1
    = Raise ValueError /\
  exists e,
    Seismic.spectrum Sample.blackman Sample.rfft_abs Sample.log10 [1; 1; 1; 1] 1
      = Raise e.
Proof.
  split; [vm_compute; reflexivity|].
  apply (spectrum_no_crossing Sample.blackman Sample.rfft_abs Sample.log10
           [1; 1; 1; 1] 1).
  intros sig z. apply (flat_no_crossing Sample.log10 1 3).
Defined.

Lemma crossing_fractional sig z :
  Seismic.crossing sig z == fractional_bin sig z.
Proof.
  unfold Seismic.crossing, fractional_bin, Qdiv, Qminus. ring.
Qed.

(** The frequency the code gives a crossing is the one of the interpolation
    formula. *)
Lemma interp_crossing f sig z :
  ascending f -> length f = length sig -> is_crossing sig z ->
  exists w, Np.interp (Seismic.crossing sig z) (Seismic.bins (length f)) f = Ok w
            /\ w == crossing_frequency f sig z.
Proof.
  intros Ha Hlen Hz.
  assert (Hf : f <> []).
  { destruct Hz as (Hz & _). destruct f; [simpl in Hlen; lia | discriminate]. }
  destruct (interp_bins_ok (Seismic.crossing sig z) f Hf) as [w Hw].
  exists w. split; [exact Hw|].
  destruct (crossing_bounds sig z Hz) as [Hlo Hhi].
  assert (Hlt : (S z < length f)%nat) by (destruct Hz as (Hz & _); lia).
  rewrite (interp_bins_segment f z (Seismic.crossing sig z) w Ha Hlt Hlo Hhi Hw).
  unfold crossing_frequency. rewrite crossing_fractional. reflexivity.
Qed.

(** C8. With a crossing, [band_edges] returns the least and the greatest
    of the crossing frequencies, each crossing [z] at the fractional bin
    [z + (-sig[z]) / (sig[z+1] - sig[z])] and at the frequency that linear
    interpolation on the axis gives this bin. *)
Theorem band_edges_crossing_frequencies log10 a f sig :
  Seismic.shifted log10 a = Ok sig ->
  length f = length a -> ascending f ->
  (exists z, is_crossing sig z) ->
  exists lo hi,
    Seismic.band_edges log10 a f = Ok (f, a, lo, hi) /\
    (exists z, is_crossing sig z /\ lo == crossing_frequency f sig z) /\
    (forall z, is_crossing sig z -> lo <= crossing_frequency f sig z) /\
    (exists z, is_crossing sig z /\ hi == crossing_frequency f sig z) /\
    (forall z, is_crossing sig z -> crossing_frequency f sig z <= hi).
Proof.
  intros Hs Hlen Ha (z0 & Hz0).
  rewrite <- (shifted_length _ _ _ Hs) in Hlen.
  unfold Seismic.band_edges. rewrite Hs. simpl bind.
  set (cs := map (Seismic.crossing sig) (Seismic.crossing_indices sig)).
  assert (Hin : forall z, is_crossing sig z -> In (Seismic.crossing sig z) cs).
  { intros z Hz. apply in_map. apply crossing_indices_spec. exact Hz. }
  assert (Hout : forall c, In c cs -> exists z, is_crossing sig z /\ c = Seismic.crossing sig z).
  { intros c Hc. apply in_map_iff in Hc. destruct Hc as (z & <- & Hz).
    exists z. split; [apply crossing_indices_spec; exact Hz | reflexivity]. }
  assert (Hne : cs <> []).
  { intros E. specialize (Hin z0 Hz0). rewrite E in Hin. contradiction. }
  destruct (amin_ok cs Hne) as [mi Hmi]. destruct (amax_ok cs Hne) as [ma Hma].
  rewrite Hmi, Hma. simpl bind.
  destruct (amin_spec cs mi Hmi) as [Hmi_in Hmi_le].
  destruct (amax_spec cs ma Hma) as [Hma_in Hma_le].
  destruct (Hout mi Hmi_in) as (zi & Hzi & Emi).
  destruct (Hout ma Hma_in) as (za & Hza & Ema).
  destruct (interp_crossing f sig zi Ha Hlen Hzi) as (lo & Hlo & Elo).
  destruct (interp_crossing f sig za Ha Hlen Hza) as (hi & Hhi & Ehi).
  rewrite <- Emi in Hlo. rewrite <- Ema in Hhi.
  rewrite Hlo, Hhi. simpl bind.
  exists lo, hi. split; [reflexivity|].
  split; [exists zi; auto|]. split.
  - intros z Hz.
    destruct (interp_crossing f sig z Ha Hlen Hz) as (w & Hw & Ew).
    rewrite <- Ew.
    apply (interp_bins_mono f mi (Seismic.crossing sig z) lo w Ha); auto.
  - split; [exists za; auto|]. intros z Hz.
    destruct (interp_crossing f sig z Ha Hlen Hz) as (w & Hw & Ew).
    rewrite <- Ew.
    apply (interp_bins_mono f (Seismic.crossing sig z) ma w hi Ha); auto.
Qed.

Lemma band_edges_crossing_frequencies_witness :
  exists lo hi,
    Seismic.band_edges Sample.log10 Sample.one_peak Sample.axis
      = Ok (Sample.axis, Sample.one_peak, lo, hi) /\
    (forall z, is_crossing [-(40); 20; -(40)] z ->
       lo <= crossing_frequency Sample.axis [-(40); 20; -(40)] z) /\
    (forall z, is_crossing [-(40); 20; -(40)] z ->
       crossing_frequency Sample.axis [-(40); 20; -(40)] z <= hi).
Proof.
  destruct (band_edges_crossing_frequencies Sample.log10 Sample.one_peak
              Sample.axis [-(40); 20; -(40)])
    as (lo & hi & Hb & _ & Hlo & _ & Hhi).
  - vm_compute. reflexivity.
  - reflexivity.
  - simpl. repeat split; discriminate.
  - exists 0%nat. split; [simpl; lia | split; [reflexivity | discriminate]].
  - exists lo, hi. repeat split; assumption.
Defined.

(** ** The ensemble *)

Lemma inverse_pos x y : 0 < x -> Seismic.inverse x = Ok y -> 0 < y.
Proof.
  intros Hx. unfold Seismic.inverse.
  destruct (Qeq_bool x 0); [discriminate|]. intros H. inversion H.
  unfold Qdiv. rewrite Qmult_1_l. apply Qinv_lt_0_compat. exact Hx.
Qed.

Lemma ascending_multiples val : 0 <= val ->
  forall n k, ascending (map (fun i => of_nat i * val) (seq k n)).
Proof.
  intros Hv. induction n as [|n IH]; intros k; [exact I|].
  destruct n as [|n]; [exact I|].
  change (seq k (S (S n))) with (k :: seq (S k) (S n)).
  rewrite map_cons. specialize (IH (S k)).
  change (seq (S k) (S n)) with (S k :: seq (S (S k)) n) in *.
  rewrite map_cons in *. split; [|exact IH].
  rewrite of_nat_S. rewrite Qmult_plus_distr_l. lra.
Qed.

(** For a positive sample spacing the frequency axis does not decrease. *)
Lemma rfftfreq_ascending n d f :
  0 < d -> Seismic.rfftfreq n d = Ok f -> ascending f.
Proof.
  intros Hd H. unfold Seismic.rfftfreq in H. apply bind_ok in H.
  destruct H as (val & Hval & H). inversion H. subst f.
  apply ascending_multiples.
  assert (Hn : 0 <= of_nat n) by apply of_nat_nonneg.
  unfold Seismic.inverse in Hval.
  destruct (Qeq_bool (of_nat n * d) 0) eqn:E; [discriminate|].
  apply Qeq_bool_neq in E. inversion Hval.
  assert (Hp : 0 <= of_nat n * d) by (apply Qmult_le_0_compat; lra).
  assert (Hp' : 0 < of_nat n * d).
  { destruct (Qlt_le_dec 0 (of_nat n * d)) as [Hlt|Hle]; [exact Hlt|].
    exfalso. apply E. lra. }
  unfold Qdiv. rewrite Qmult_1_l. apply Qlt_le_weak, Qinv_lt_0_compat. exact Hp'.
Qed.

(** On an axis that does not decrease the lower edge is not above the
    upper edge. *)
Lemma band_edges_min_le_max log10 a f f' a' lo hi :
  ascending f ->
  Seismic.band_edges log10 a f = Ok (f', a', lo, hi) -> lo <= hi.
Proof.
  intros Ha H. unfold Seismic.band_edges in H.
  apply bind_ok in H. destruct H as (sig & _ & H).
  apply bind_ok in H. destruct H as (mi & Hmi & H).
  apply bind_ok in H. destruct H as (ma & Hma & H).
  apply bind_ok in H. destruct H as (lo' & Hlo & H).
  apply bind_ok in H. destruct H as (hi' & Hhi & H).
  inversion H. subst lo' hi'.
  destruct (amin_spec _ _ Hmi) as [Hin _].
  destruct (amax_spec _ _ Hma) as [_ Hle].
  apply (interp_bins_mono f mi ma lo hi Ha (Hle mi Hin) Hlo Hhi).
Qed.

Lemma spectrum_inv blackman rfft_abs log10 signal fs r :
  Seismic.spectrum blackman rfft_abs log10 signal fs = Ok r ->
  exists a d f,
    a = rfft_abs (Seismic.mul signal (blackman (length signal))) /\
    Seismic.inverse fs = Ok d /\
    Seismic.rfftfreq (length signal) d = Ok f /\
    Seismic.band_edges log10 a f = Ok r.
Proof.
  unfold Seismic.spectrum. intros H.
  apply bind_ok in H. destruct H as (a & Ha & H).
  apply bind_ok in H. destruct H as (d & Hd & H).
  apply bind_ok in H. destruct H as (f & Hf & H).
  exists a, d, f. repeat split; auto.
  destruct (Seismic.mul signal (blackman (length signal)));
    [discriminate | inversion Ha; reflexivity].
Qed.

Lemma peak_of_inv f a lo hi st :
  Seismic.peak_of (f, a, lo, hi) = Ok st ->
  Seismic.ts_f st = f /\ Seismic.ts_amp st = a /\
  Seismic.ts_min st = lo /\ Seismic.ts_max st = hi /\
  exists i, Np.argmax a = Ok i /\ Seismic.item f i = Ok (Seismic.ts_peak st).
Proof.
  unfold Seismic.peak_of. intros H.
  apply bind_ok in H. destruct H as (i & Hi & H).
  apply bind_ok in H. destruct H as (peak & Hp & H).
  inversion H. simpl. repeat split; auto. exists i. auto.
Qed.

Lemma trace_spectrum_min_le_max blackman rfft_abs log10 trace fs st :
  0 < fs ->
  Seismic.trace_spectrum blackman rfft_abs log10 trace fs = Ok st ->
  Seismic.ts_min st <= Seismic.ts_max st.
Proof.
  intros Hfs H. unfold Seismic.trace_spectrum in H.
  apply bind_ok in H. destruct H as ([[[f a] lo] hi] & Hs & Hp).
  apply peak_of_inv in Hp. destruct Hp as (_ & _ & -> & -> & _).
  apply spectrum_inv in Hs. destruct Hs as (a0 & d & f0 & _ & Hd & Hf & Hb).
  apply (band_edges_min_le_max log10 a0 f0 f a lo hi); [|exact Hb].
  apply (rfftfreq_ascending (length trace) d f0); [|exact Hf].
  apply (inverse_pos fs d Hfs Hd).
Qed.

Lemma mapM_inv {A B : Type} (f : A -> result B) l : forall rs,
  mapM f l = Ok rs -> Forall2 (fun x r => f x = Ok r) l rs.
Proof.
  induction l as [|x l IH]; intros rs H; simpl in H.
  - inversion H. constructor.
  - apply bind_ok in H. destruct H as (b & Hb & H).
    apply bind_ok in H. destruct H as (bs & Hbs & H).
    inversion H. constructor; [exact Hb | apply IH; exact Hbs].
Qed.

Lemma summarise_inv log10 rs p :
  Seismic.summarise log10 rs = Ok p ->
  exists final before,
    rev rs = final :: before /\
    Seismic.plot_f p = Seismic.ts_f final /\
    Seismic.normalised_db log10 (Seismic.ts_amp final) = Ok (Seismic.plot_db p) /\
    Seismic.f_peak p = Np.mean (map Seismic.ts_peak rs) /\
    Np.amin (map Seismic.ts_min rs) = Ok (Seismic.f_min p) /\
    Np.amax (map Seismic.ts_max rs) = Ok (Seismic.f_max p).
Proof.
  unfold Seismic.summarise. intros H.
  apply bind_ok in H. destruct H as (spec & _ & H).
  destruct (rev rs) as [|final before]; [discriminate|].
  apply bind_ok in H. destruct H as (db & Hdb & H).
  apply bind_ok in H. destruct H as (lo & Hlo & H).
  apply bind_ok in H. destruct H as (hi & Hhi & H).
  inversion H. simpl. exists final, before. repeat split; auto.
Qed.

Lemma plot_spectrum_inv blackman rfft_abs log10 s trace_indices p :
  Seismic.plot_spectrum blackman rfft_abs log10 s trace_indices = Ok p ->
  exists fs rs,
    Seismic.inverse (Seismic.dt s) = Ok fs /\
    Forall2 (fun ti r =>
               exists trace, Seismic.column (Seismic.data s) ti = Ok trace /\
                 Seismic.trace_spectrum blackman rfft_abs log10 trace fs = Ok r)
            trace_indices rs /\
    Seismic.summarise log10 rs = Ok p.
Proof.
  unfold Seismic.plot_spectrum. intros H.
  apply bind_ok in H. destruct H as (u & _ & H).
  apply bind_ok in H. destruct H as (fs & Hfs & H).
  apply bind_ok in H. destruct H as (rs & Hrs & H).
  exists fs, rs. repeat split; auto.
  apply mapM_inv in Hrs. eapply Forall2_impl; [|exact Hrs].
  intros ti r Hr. simpl in Hr. apply bind_ok in Hr. exact Hr.
Qed.

(** C9, counterexample. One trace whose spectrum has a single peak 60 dB
    above its neighbours: the only crossing from negative to non-negative
    is on the rising side, at bin 2/3, so both edges are 1/6 while the
    peak is at 1/4. The peak is above the upper edge. *)
Lemma peak_above_upper_edge :
  exists st p,
    (r <- Seismic.band_edges Sample.log10 Sample.one_peak Sample.axis ;;
     Seismic.peak_of r) = Ok st /\
    Seismic.summarise Sample.log10 [st] = Ok p /\
    Seismic.f_min p == 1 # 6 /\ Seismic.f_max p == 1 # 6 /\
    Seismic.f_peak p == 1 # 4 /\
    ~ (Seismic.f_min p <= Seismic.f_peak p /\ Seismic.f_peak p <= Seismic.f_max p).
Proof.
  eexists. eexists. split; [vm_compute; reflexivity|].
  split; [vm_compute; reflexivity|]. simpl.
  repeat split; try reflexivity.
  intros [_ H]. revert H. apply Qlt_not_le. reflexivity.
Qed.

(** The lower edge can be above the peak as well: a spectrum that starts at
    its maximum and rises again later. *)
Lemma peak_below_lower_edge :
  exists st p,
    (r <- Seismic.band_edges Sample.log10 [1000; 1; 100] Sample.axis ;;
     Seismic.peak_of r) = Ok st /\
    Seismic.summarise Sample.log10 [st] = Ok p /\
    Seismic.f_peak p == 0 /\ Seismic.f_peak p < Seismic.f_min p.
Proof.
  eexists. eexists. split; [vm_compute; reflexivity|].
  split; [vm_compute; reflexivity|]. simpl.
  split; reflexivity.
Qed.

(** C9, amended. For a positive sample interval, whatever the window, the
    transform and the logarithm compute, the statistics of [plot_spectrum]
    have [f_min <= f_max]. *)
Theorem plot_spectrum_min_le_max blackman rfft_abs log10 s trace_indices p :
  0 < Seismic.dt s ->
  Seismic.plot_spectrum blackman rfft_abs log10 s trace_indices = Ok p ->
  Seismic.f_min p <= Seismic.f_max p.
Proof.
  intros Hdt H. apply plot_spectrum_inv in H.
  destruct H as (fs & rs & Hfs & Hrs & Hsum).
  apply summarise_inv in Hsum.
  destruct Hsum as (final & before & Hrev & _ & _ & _ & Hmin & Hmax).
  assert (Hin : In final rs).
  { apply in_rev. rewrite Hrev. left. reflexivity. }
  destruct (amin_spec _ _ Hmin) as [_ Hlo].
  destruct (amax_spec _ _ Hmax) as [_ Hhi].
  apply Qle_trans with (Seismic.ts_min final);
    [apply Hlo, in_map, Hin|].
  apply Qle_trans with (Seismic.ts_max final);
    [|apply Hhi, in_map, Hin].
  pose proof (inverse_pos _ _ Hdt Hfs) as Hpos.
  clear - Hrs Hin Hpos. induction Hrs as [|ti r tis rs' Hr _ IH].
  - contradiction.
  - destruct Hin as [<-|Hin]; [|apply IH; exact Hin].
    destruct Hr as (trace & _ & Hr).
    apply (trace_spectrum_min_le_max _ _ _ _ _ _ Hpos Hr).
Qed.

Lemma plot_spectrum_min_le_max_witness :
  exists p,
    Seismic.plot_spectrum Sample.blackman Sample.rfft_abs Sample.log10
      Sample.section [1%Z; 0%Z] = Ok p /\
    Seismic.f_min p <= Seismic.f_max p.
Proof.
  eexists. split; [vm_compute; reflexivity|].
  apply (plot_spectrum_min_le_max Sample.blackman Sample.rfft_abs Sample.log10
           Sample.section [1%Z; 0%Z]).
  - reflexivity.
  - vm_compute. reflexivity.
Defined.

(** C3. The curve that [plot_spectrum] displays is the normalised decibel
    curve of the last selected trace alone, on that trace's frequency axis:
    the mean of the spectra does not reach it. *)
Theorem plot_spectrum_curve_of_last_trace
        blackman rfft_abs log10 s trace_indices ti p :
  Seismic.plot_spectrum blackman rfft_abs log10 s (trace_indices ++ [ti]) = Ok p ->
  exists fs trace st,
    Seismic.inverse (Seismic.dt s) = Ok fs /\
    Seismic.column (Seismic.data s) ti = Ok trace /\
    Seismic.trace_spectrum blackman rfft_abs log10 trace fs = Ok st /\
    Seismic.normalised_db log10 (Seismic.ts_amp st) = Ok (Seismic.plot_db p) /\
    Seismic.plot_f p = Seismic.ts_f st.
Proof.
  intros H. apply plot_spectrum_inv in H.
  destruct H as (fs & rs & Hfs & Hrs & Hsum).
  apply Forall2_app_inv_l in Hrs.
  destruct Hrs as (rs1 & rs2 & _ & Hlast & ->).
  inversion Hlast as [|ti' r l1 l2 Hr Hnil]. subst. inversion Hnil. subst.
  destruct Hr as (trace & Hcol & Hr).
  apply summarise_inv in Hsum.
  destruct Hsum as (final & before & Hrev & Hf & Hdb & _).
  rewrite rev_app_distr in Hrev. simpl in Hrev. inversion Hrev. subst final.
  exists fs, trace, r. repeat split; assumption.
Qed.

Lemma plot_spectrum_curve_of_last_trace_witness :
  exists p q,
    Seismic.plot_spectrum Sample.blackman Sample.rfft_abs Sample.log10
      Sample.section ([1%Z] ++ [0%Z]) = Ok p /\
    Seismic.plot_spectrum Sample.blackman Sample.rfft_abs Sample.log10
      Sample.section [0%Z] = Ok q /\
    Seismic.plot_db p = [-(60); 0; -(60)] /\
    Seismic.plot_db q = Seismic.plot_db p.
Proof.
  eexists. eexists. split; [vm_compute; reflexivity|].
  split; [vm_compute; reflexivity|].
  destruct (plot_spectrum_curve_of_last_trace Sample.blackman Sample.rfft_abs
              Sample.log10 Sample.section [1%Z] 0%Z _
              ltac:(vm_compute; reflexivity))
    as (fs & trace & st & _ & _ & _ & _ & _).
  split; reflexivity.
Defined.

(** * Further properties

    What the code shows beyond the sentences checked above. *)

(** ** More on the constructor *)

(** X2. No model is built without a sample interval: when [dt] is 0, or
    absent from [params] so that it defaults to 0, the constructor ends in
    an exception whatever the data ([np.arange] refuses a step of 0, if
    nothing failed before). *)
Theorem init_zero_dt_raises d params :
  Seismic.get (Seismic.p_dt params) 0 == 0 ->
  exists e, snd (Seismic.init d params) = Raise e.
Proof.
  intros Hdt. apply Qeq_bool_iff in Hdt.
  destruct (Seismic.init d params) as [log [s|e]] eqn:H; [|simpl; eauto].
  exfalso. apply init_inv in H.
  destruct H as (n0 & nl & log1 & log2 & _ & _ & _ & _ & _ & _ & _ & Hd & _ & _ & Ht).
  unfold Np.arange in Ht. rewrite Hd, Hdt in Ht. discriminate.
Qed.

Lemma init_zero_dt_raises_witness :
  Seismic.init (Sample.traces 3 2) Seismic.no_params = ([], Raise ZeroDivisionError) /\
  exists e, snd (Seismic.init (Sample.traces 3 2) Seismic.no_params) = Raise e.
Proof.
  split; [vm_compute; reflexivity|].
  apply (init_zero_dt_raises (Sample.traces 3 2) Seismic.no_params).
  reflexivity.
Defined.

Lemma In_app_nxlines (log1 log2 : list Seismic.message) n x nx :
  log2 = (if negb (nx =? 0)%Z && negb (x =? nx)%Z
          then [Seismic.Nxlines_changed nx] else []) \/ log2 = [] ->
  (In (Seismic.Nsamples_changed n) (log1 ++ log2) <-> In (Seismic.Nsamples_changed n) log1).
Proof.
  intros H. rewrite in_app_iff. split; [|auto].
  intros [H1|H2]; [exact H1|]. exfalso.
  destruct H as [->| ->]; [|contradiction].
  destruct (negb (nx =? 0)%Z && negb (x =? nx)%Z); simpl in H2;
    [destruct H2 as [H2|[]]; discriminate | contradiction].
Qed.

(** X3. The data decide the number of samples. A constructed model has
    [nsamples] equal to the length of the last axis of the data, unless
    the caller gave 0, which is kept; the change is printed exactly when
    the caller gave a count that is neither 0 nor that length. *)
Theorem init_nsamples_follows_data d params log s nl :
  Seismic.init d params = (log, Ok s) ->
  Np.shape_last d = Ok nl ->
  let given := Seismic.get (Seismic.p_nsamples params) (Z.of_nat nl) in
  (given <> 0%Z -> Seismic.nsamples s = Z.of_nat nl) /\
  (given = 0%Z -> Seismic.nsamples s = 0%Z) /\
  (In (Seismic.Nsamples_changed (Z.of_nat nl)) log <->
   given <> 0%Z /\ given <> Z.of_nat nl).
Proof.
  intros H Hl given. apply init_inv in H.
  destruct H as (n0 & nl' & log1 & log2 & _ & Hl' & Hns & _ & Hnx & Hlog & _).
  rewrite Hl in Hl'. inversion Hl'. subst nl'. fold given in Hns.
  assert (Hlog2 : In (Seismic.Nsamples_changed (Z.of_nat nl)) log <->
                  In (Seismic.Nsamples_changed (Z.of_nat nl)) log1).
  { rewrite Hlog.
    apply (In_app_nxlines log1 log2 (Z.of_nat nl)
             (Seismic.get (Seismic.p_nxlines params) 0%Z)
             (Z.of_nat n0 ÷ Seismic.ninlines s)%Z).
    unfold Seismic.resolve_nxlines in Hnx.
    destruct (Seismic.ninlines s >? 1)%Z; inversion Hnx; auto. }
  rewrite Hlog2. clear Hlog2 Hnx Hlog.
  unfold Seismic.resolve_nsamples in Hns.
  destruct (Z.eqb_spec given 0) as [E0|E0]; simpl in Hns.
  - inversion Hns. subst log1. simpl. repeat split; intros; tauto || congruence.
  - destruct (Z.eqb_spec given (Z.of_nat nl)) as [E1|E1]; simpl in Hns.
    + inversion Hns. subst log1. simpl.
      repeat split; intros; tauto || congruence.
    + destruct (Z.eqb_spec given (Z.of_nat nl)); [contradiction|].
      simpl in Hns. inversion Hns. subst log1. simpl.
      repeat split; intros; tauto || congruence.
Qed.

Lemma init_nsamples_follows_data_witness :
  exists s,
    Seismic.init (Sample.traces 2 3)
      (Seismic.mk_params None None None None None None (Some 7%Z) None (Some 1))
      = ([Seismic.Nsamples_changed 3], Ok s) /\
    Seismic.nsamples s = 3%Z.
Proof.
  eexists. split; [vm_compute; reflexivity|].
  destruct (init_nsamples_follows_data (Sample.traces 2 3)
              (Seismic.mk_params None None None None None None (Some 7%Z) None (Some 1))
              _ _ 3%nat ltac:(vm_compute; reflexivity) ltac:(reflexivity))
    as (H & _ & _).
  apply H. discriminate.
Defined.

(** The time basis, written out. *)
Lemma tbasis_eq d params log s :
  Seismic.init d params = (log, Ok s) ->
  ~ Seismic.dt s == 0 /\
  Seismic.tbasis s
    = map (fun i => 0 + of_nat i * Seismic.dt s)
          (seq 0 (Z.to_nat (Seismic.nsamples s))).
Proof.
  intros H. apply init_inv in H.
  destruct H as (n0 & nl & log1 & log2 & _ & _ & _ & _ & _ & _ & _ & _ & _ & _ & Ht).
  unfold Np.arange in Ht.
  destruct (Qeq_bool (Seismic.dt s) 0) eqn:Hdt; [discriminate|].
  apply Qeq_bool_neq in Hdt. split; [exact Hdt|].
  assert (Hn : Qceiling ((inject_Z (Seismic.nsamples s) * Seismic.dt s - 0)
                         / Seismic.dt s) = Seismic.nsamples s).
  { rewrite <- (Qceiling_Z (Seismic.nsamples s)) at 2.
    apply Qceiling_comp. field. exact Hdt. }
  rewrite Hn in Ht. inversion Ht. reflexivity.
Qed.

Lemma of_nat_le (i j : nat) : (i <= j)%nat -> of_nat i <= of_nat j.
Proof. intros H. unfold of_nat. rewrite <- Zle_Qle. lia. Qed.


(** ** The end of the time basis *)



(** X5. With a negative sample interval the time basis runs backwards
    from 0, and [tend], its largest entry, is 0: the start, not the end. *)
Theorem tend_negative_dt d params log s :
  Seismic.init d params = (log, Ok s) ->
  Seismic.dt s < 0 -> (0 < Seismic.nsamples s)%Z ->
  exists e, Seismic.tend s = Ok e /\ e == 0.
Proof.
  intros H Hdt Hns. destruct (tbasis_eq _ _ _ _ H) as [_ Ht].
  unfold Seismic.tend. rewrite Ht.
  set (n := Z.to_nat (Seismic.nsamples s)).
  set (tb := map (fun i => 0 + of_nat i * Seismic.dt s) (seq 0 n)).
  assert (Hne : tb <> []).
  { unfold tb. destruct n eqn:E; [unfold n in E; lia | discriminate]. }
  destruct (amax_ok tb Hne) as [e He]. exists e. split; [exact He|].
  destruct (amax_spec tb e He) as [Hin Hle].
  apply Qle_antisym.
  - unfold tb in Hin. apply in_map_iff in Hin. destruct Hin as (i & <- & Hi).
    pose proof (of_nat_nonneg i) as Hi0.
    assert (Hm : 0 <= of_nat i * - Seismic.dt s)
      by (apply Qmult_le_0_compat; lra).
    assert (Hr : of_nat i * Seismic.dt s == - (of_nat i * - Seismic.dt s))
      by ring.
    lra.
  - assert (Hm : In (0 + of_nat 0 * Seismic.dt s) tb).
    { unfold tb. apply in_map_iff. exists 0%nat. split; [reflexivity|].
      apply in_seq. unfold n in *. lia. }
    specialize (Hle _ Hm). change (of_nat 0) with 0 in Hle. lra.
Qed.

(** X6. A model constructed with [nsamples = 0] has an empty time basis,
    and [tend] raises ValueError. *)
Theorem tend_without_samples d params log s :
  Seismic.init d params = (log, Ok s) ->
  Seismic.nsamples s = 0%Z ->
  Seismic.tbasis s = [] /\ Seismic.tend s = Raise ValueError.
Proof.
  intros H Hns. destruct (tbasis_eq _ _ _ _ H) as [_ Ht].
  unfold Seismic.tend. rewrite Ht, Hns. split; reflexivity.
Qed.

Lemma tend_negative_dt_witness :
  exists s e,
    Seismic.init (Sample.traces 1 3)
      (Seismic.mk_params None None None None None None None None (Some (-(1))))
      = ([], Ok s) /\
    Seismic.tbasis s = [0; -(1); -(2)] /\
    Seismic.tend s = Ok e /\ e == 0.
Proof.
  eexists.
  destruct (tend_negative_dt (Sample.traces 1 3)
              (Seismic.mk_params None None None None None None None None (Some (-(1))))
              _ _ ltac:(vm_compute; reflexivity) ltac:(reflexivity) ltac:(reflexivity))
    as (e & He & Ee).
  exists e. split; [reflexivity|]. split; [reflexivity|]. split; assumption.
Defined.

Lemma tend_without_samples_witness :
  exists s,
    Seismic.init (Sample.traces 2 3)
      (Seismic.mk_params None None None None None None (Some 0%Z) None (Some 1))
      = ([], Ok s) /\
    Seismic.tend s = Raise ValueError.
Proof.
  eexists. split; [vm_compute; reflexivity|].
  apply (tend_without_samples (Sample.traces 2 3)
           (Seismic.mk_params None None None None None None (Some 0%Z) None (Some 1))
           [] _ ltac:(vm_compute; reflexivity) ltac:(reflexivity)).
Defined.

(** [np.linspace(1, n, n)] is [1, 2, ..., n]. *)
Lemma linspace_one_to_n n l :
  Np.linspace 1 (inject_Z n) n = Ok l ->
  length l = Z.to_nat n /\
  forall i, (i < Z.to_nat n)%nat -> nth i l 0 == of_nat i + 1.
Proof.
  unfold Np.linspace. destruct (Z.ltb_spec n 0) as [Hneg|Hpos]; [discriminate|].
  destruct (Z.eqb_spec n 1) as [E1|E1]; intros H; inversion H; subst l; clear H.
  - subst n. split; [reflexivity|]. intros i Hi.
    assert (i = 0)%nat by (simpl in Hi; lia). subst i. reflexivity.
  - split; [rewrite length_map, length_seq; reflexivity|]. intros i Hi.
    rewrite (nth_indep _ 0
               ((fun i => 1 + of_nat i * ((inject_Z n - 1) / inject_Z (n - 1))) 0%nat))
      by (rewrite length_map, length_seq; exact Hi).
    rewrite (map_nth (fun i => 1 + of_nat i * ((inject_Z n - 1) / inject_Z (n - 1)))).
    rewrite seq_nth by exact Hi. simpl plus.
    assert (Hn : inject_Z (n - 1) == inject_Z n - 1).
    { unfold Z.sub. rewrite inject_Z_plus. reflexivity. }
    assert (Hnz : ~ inject_Z (n - 1) == 0).
    { replace 0 with (inject_Z 0) by reflexivity. rewrite inject_Z_injective. lia. }
    rewrite <- Hn. field. exact Hnz.
Qed.

(** X7. Coordinates the caller does not give are numbered from 1: without
    [inlines] in [params] the inline coordinates of a constructed model are
    1, 2, ..., [ninlines], and without [xlines] its crossline coordinates
    are 1, 2, ..., [nxlines], for the counts as resolved. *)
Theorem init_default_coordinates d params log s :
  Seismic.init d params = (log, Ok s) ->
  (Seismic.p_inlines params = None ->
     length (Seismic.inlines s) = Z.to_nat (Seismic.ninlines s) /\
     forall i, (i < Z.to_nat (Seismic.ninlines s))%nat ->
       nth i (Seismic.inlines s) 0 == of_nat i + 1) /\
  (Seismic.p_xlines params = None ->
     length (Seismic.xlines s) = Z.to_nat (Seismic.nxlines s) /\
     forall i, (i < Z.to_nat (Seismic.nxlines s))%nat ->
       nth i (Seismic.xlines s) 0 == of_nat i + 1).
Proof.
  intros H. apply init_inv in H.
  destruct H as (n0 & nl & log1 & log2 & _ & _ & _ & _ & _ & _ & _ & _ & Hi & Hx & _).
  split; intros Hp.
  - rewrite Hp in Hi. apply linspace_one_to_n. exact Hi.
  - rewrite Hp in Hx. apply linspace_one_to_n. exact Hx.
Qed.

Lemma init_default_coordinates_witness :
  exists s,
    Seismic.init (Sample.traces 8 1) (Sample.counts (Some 4%Z) None None)
      = ([Seismic.Nxlines_changed 2], Ok s) /\
    length (Seismic.inlines s) = 4%nat /\ nth 3 (Seismic.inlines s) 0 == 4 /\
    length (Seismic.xlines s) = 2%nat.
Proof.
  eexists. split; [vm_compute; reflexivity|].
  destruct (init_default_coordinates (Sample.traces 8 1)
              (Sample.counts (Some 4%Z) None None) _ _
              ltac:(vm_compute; reflexivity)) as [Hi Hx].
  destruct (Hi eq_refl) as [Hil Hin]. destruct (Hx eq_refl) as [Hxl _].
  split; [exact Hil|]. split; [|exact Hxl].
  rewrite (Hin 3%nat) by (simpl; lia). reflexivity.
Defined.

(** With [ninlines] left at 1 and a crossline count that divides the
    number of traces, the constructor derives the inline count and
    reshapes. *)
Lemma init_from_nxlines d params n ns x q :
  Np.shape d = [n; ns] ->
  Seismic.get (Seismic.p_ninlines params) 1%Z = 1%Z ->
  Seismic.get (Seismic.p_nxlines params) 0%Z = x ->
  (0 < x)%Z -> (1 < q)%Z -> Z.of_nat n = (q * x)%Z ->
  ~ Seismic.get (Seismic.p_dt params) 0 == 0 ->
  exists s,
    Seismic.init d params
      = (snd (Seismic.resolve_nsamples
                (Seismic.get (Seismic.p_nsamples params) (Z.of_nat ns))
                (Z.of_nat ns)), Ok s) /\
    Seismic.ninlines s = q /\ Seismic.nxlines s = x /\
    Np.shape (Seismic.data s) = [Z.to_nat q; Z.to_nat x; ns] /\
    Np.flat (Seismic.data s) = Np.flat d.
Proof.
  intros Hsh Hnin Hnx Hx Hq Hn Hdt.
  destruct (shape_two d n ns Hsh) as (Hf & Hl & Hsz).
  assert (Hq1 : (Z.of_nat n ÷ x = q)%Z).
  { rewrite Hn. apply Z.quot_mul. lia. }
  assert (Hq2 : (Z.of_nat n ÷ q = x)%Z).
  { rewrite Hn, Z.mul_comm. apply Z.quot_mul. lia. }
  unfold Seismic.init. rewrite Hf, Hl, Hnin, Hnx.
  destruct (Seismic.resolve_nsamples _ _) as [nsm log1]. simpl snd.
  unfold Seismic.resolve_ninlines. simpl Z.eqb.
  replace (x >? 0)%Z with true by (symmetry; apply Z.gtb_lt; lia).
  rewrite Hq1. unfold Seismic.resolve_nxlines.
  replace (q >? 1)%Z with true by (symmetry; apply Z.gtb_lt; lia).
  rewrite Hq2, Z.eqb_refl, andb_false_r, app_nil_r.
  unfold Np.reshape. rewrite Hsz, Nat2Z.id. simpl Np.prod.
  replace (Z.to_nat q * (Z.to_nat x * (ns * 1)) =? n * ns)%nat with true
    by (symmetry; apply Nat.eqb_eq; nia).
  simpl bind.
  destruct (default_axis_ok (Seismic.p_inlines params) q ltac:(lia)) as [il Hil].
  destruct (default_axis_ok (Seismic.p_xlines params) x ltac:(lia)) as [xl Hxl].
  rewrite Hil, Hxl. simpl bind. unfold Np.arange.
  replace (Qeq_bool (Seismic.get (Seismic.p_dt params) 0) 0) with false
    by (symmetry; apply not_true_is_false; intros E; apply Hdt, Qeq_bool_iff, E).
  simpl bind. eexists. split; [reflexivity|]. simpl. auto.
Qed.

(** X8. The case the constructor's comment describes, crosslines known
    and inlines not: with [nxlines = x > 0] given, [ninlines] absent or 1,
    and [n = q * x] traces with [q > 1], the constructor derives
    [ninlines = q], keeps [nxlines = x] without printing a change, and
    reshapes the data to [(q, x, nsamples)] with every element in its
    original order. *)
Theorem init_inlines_from_nxlines d params n ns x q :
  Np.shape d = [n; ns] ->
  Seismic.get (Seismic.p_ninlines params) 1%Z = 1%Z ->
  Seismic.p_nxlines params = Some x ->
  (0 < x)%Z -> (1 < q)%Z -> Z.of_nat n = (q * x)%Z ->
  ~ Seismic.get (Seismic.p_dt params) 0 == 0 ->
  exists s,
    Seismic.init d params
      = (snd (Seismic.resolve_nsamples
                (Seismic.get (Seismic.p_nsamples params) (Z.of_nat ns))
                (Z.of_nat ns)), Ok s) /\
    Seismic.ninlines s = q /\ Seismic.nxlines s = x /\
    Np.shape (Seismic.data s) = [Z.to_nat q; Z.to_nat x; ns] /\
    Np.flat (Seismic.data s) = Np.flat d.
Proof.
  intros Hsh Hnin Hnx Hx Hq Hn Hdt.
  apply init_from_nxlines with (n := n); auto.
  rewrite Hnx. reflexivity.
Qed.

Lemma init_inlines_from_nxlines_witness :
  exists s,
    Seismic.init (Sample.traces 6 2) (Sample.counts None (Some 3%Z) None) = ([], Ok s) /\
    Seismic.ninlines s = 2%Z /\ Seismic.nxlines s = 3%Z /\
    Np.shape (Seismic.data s) = [2; 3; 2]%nat.
Proof.
  destruct (init_inlines_from_nxlines (Sample.traces 6 2)
              (Sample.counts None (Some 3%Z) None) 6 2 3 2
              ltac:(reflexivity) ltac:(reflexivity) ltac:(reflexivity)
              ltac:(lia) ltac:(lia) ltac:(reflexivity) ltac:(discriminate))
    as (s & Hi & Hn & Hx & Hsh & _).
  exists s. repeat split; assumption.
Defined.

(** X9. Data of one axis (a single trace, not empty) cannot be laid out in
    inlines: whenever the resolved [ninlines] exceeds 1 the constructor
    raises ValueError, since no count of crosslines makes the reshape
    fit. *)
Theorem init_one_axis_raises d params n :
  Np.shape d = [n] -> (0 < n)%nat ->
  (1 < Seismic.resolve_ninlines
         (Seismic.get (Seismic.p_ninlines params) 1%Z)
         (Seismic.get (Seismic.p_nxlines params) 0%Z) (Z.of_nat n))%Z ->
  snd (Seismic.init d params) = Raise ValueError.
Proof.
  intros Hsh Hn Hnin.
  assert (Hf : Np.shape_first d = Ok n) by (unfold Np.shape_first; rewrite Hsh; reflexivity).
  assert (Hl : Np.shape_last d = Ok n) by (unfold Np.shape_last; rewrite Hsh; reflexivity).
  unfold Seismic.init. rewrite Hf, Hl.
  destruct (Seismic.resolve_nsamples _ _) as [nsm log1].
  set (nin := Seismic.resolve_ninlines
                (Seismic.get (Seismic.p_ninlines params) 1%Z)
                (Seismic.get (Seismic.p_nxlines params) 0%Z) (Z.of_nat n)) in *.
  unfold Seismic.resolve_nxlines.
  replace (nin >? 1)%Z with true by (symmetry; apply Z.gtb_lt; lia).
  unfold Np.reshape, Np.size. rewrite Hsh, Nat2Z.id. simpl Np.prod.
  assert (Hq : (0 <= Z.of_nat n ÷ nin)%Z) by (apply Z.quot_pos; lia).
  destruct (Nat.eqb_spec (Z.to_nat nin * (Z.to_nat (Z.of_nat n ÷ nin) * (n * 1)))
                         (n * 1)) as [E|E]; [|reflexivity].
  exfalso.
  assert (E1 : (Z.to_nat nin * Z.to_nat (Z.of_nat n ÷ nin) = 1)%nat) by nia.
  assert (E2 : (2 <= Z.to_nat nin)%nat) by lia.
  destruct (Z.to_nat (Z.of_nat n ÷ nin)); nia.
Qed.

Lemma init_one_axis_raises_witness :
  snd (Seismic.init (Np.mk_ndarray [4%nat] [1; 2; 3; 4])
         (Sample.counts (Some 2%Z) None None)) = Raise ValueError.
Proof.
  apply (init_one_axis_raises _ _ 4); [reflexivity | lia | reflexivity].
Defined.

(** ** More on the line accessors *)

(** X10. When the caller gives no [xlines], no (or a zero) [nxlines] and
    [ninlines] of at most 1, as in every plain construction from a 2-D
    array, the model's crossline coordinates are empty and [trace_range]
    raises IndexError for every direction. *)
Theorem trace_range_without_xlines d params log s direction :
  Seismic.init d params = (log, Ok s) ->
  Seismic.p_xlines params = None ->
  Seismic.get (Seismic.p_nxlines params) 0%Z = 0%Z ->
  (Seismic.get (Seismic.p_ninlines params) 1%Z <= 1)%Z ->
  Seismic.xlines s = [] /\
  Seismic.trace_range s direction = Raise IndexError.
Proof.
  intros H Hxl Hnx Hnin. apply init_inv in H.
  destruct H as (n0 & nl & log1 & log2 & _ & _ & _ & Hn & Hx & _ & _ & _ & _ & Hxs & _).
  rewrite Hnx in *. unfold Seismic.resolve_ninlines in Hn. simpl in Hn.
  assert (Hn' : Seismic.ninlines s = Seismic.get (Seismic.p_ninlines params) 1%Z)
    by (rewrite Hn; destruct (_ =? 1)%Z; reflexivity).
  unfold Seismic.resolve_nxlines in Hx.
  replace (Seismic.ninlines s >? 1)%Z with false in Hx
    by (symmetry; rewrite Z.gtb_ltb; apply Z.ltb_ge; lia).
  inversion Hx as [[Hx0 Hl2 Hd]]. rewrite <- Hx0, Hxl in Hxs.
  inversion Hxs as [Hxs']. split; [reflexivity|].
  unfold Seismic.trace_range. rewrite <- Hxs'.
  destruct direction as [|c rest]; [reflexivity|].
  rewrite first_char_lower. simpl bind.
  destruct (Ascii.eqb (Seismic.lower_ascii c) "x"); [|reflexivity].
  destruct (Np.first (Seismic.inlines s)) as [a|e] eqn:Ea; simpl.
  - destruct (Np.last (Seismic.inlines s)) as [b|e] eqn:Eb; simpl; [reflexivity|].
    unfold Np.last in Eb. destruct (rev (Seismic.inlines s)); inversion Eb. reflexivity.
  - unfold Np.first in Ea. destruct (Seismic.inlines s); inversion Ea. reflexivity.
Qed.

Lemma trace_range_without_xlines_witness :
  exists s,
    Seismic.init (Sample.traces 3 2) (Sample.counts None None None) = ([], Ok s) /\
    Seismic.trace_range s "xline" = Raise IndexError.
Proof.
  eexists. split; [vm_compute; reflexivity|].
  apply (trace_range_without_xlines (Sample.traces 3 2)
           (Sample.counts None None None) [] _ "xline"%string
           ltac:(vm_compute; reflexivity) ltac:(reflexivity)
           ltac:(reflexivity) ltac:(simpl; lia)).
Defined.

(** The shape of a constructed volume. *)
Lemma init_volume d params log s n ns :
  Seismic.init d params = (log, Ok s) ->
  Np.shape d = [n; ns] -> (1 < Seismic.ninlines s)%Z ->
  (0 <= Seismic.nxlines s)%Z /\
  Np.shape (Seismic.data s)
    = [Z.to_nat (Seismic.ninlines s); Z.to_nat (Seismic.nxlines s); ns] /\
  Np.flat (Seismic.data s) = Np.flat d /\
  (0 < ns -> Z.to_nat (Seismic.ninlines s) * Z.to_nat (Seismic.nxlines s) = n)%nat.
Proof.
  intros H Hsh Hnin. apply init_inv in H.
  destruct (shape_two d n ns Hsh) as (Hf & Hl & Hsz).
  destruct H as (n0 & nl & log1 & log2 & Hf' & Hl' & _ & _ & Hnx & _).
  rewrite Hf in Hf'. rewrite Hl in Hl'. inversion Hf'. inversion Hl'. subst n0 nl.
  unfold Seismic.resolve_nxlines in Hnx.
  replace (Seismic.ninlines s >? 1)%Z with true in Hnx
    by (symmetry; apply Z.gtb_lt; lia).
  injection Hnx as Hx _ Hd. rewrite Hx, Nat2Z.id in Hd.
  assert (Hq : (0 <= Seismic.nxlines s)%Z) by (rewrite <- Hx; apply Z.quot_pos; lia).
  unfold Np.reshape in Hd. rewrite Hsz in Hd. simpl Np.prod in Hd.
  destruct (Nat.eqb_spec (Z.to_nat (Seismic.ninlines s)
                          * (Z.to_nat (Seismic.nxlines s) * (ns * 1))) (n * ns))
    as [E|E]; [|discriminate].
  inversion Hd. simpl. repeat split; auto. intros Hns. nia.
Qed.

(** [get_line] on three axes, for an [int] and a direction in i. *)
Lemma get_line_inline_int s l direction n0 n1 n2 :
  Seismic.shape s = [n0; n1; n2] -> inline_direction direction ->
  Seismic.get_line s (Seismic.PyInt l) direction
  = (i <- Np.index n0 (if (l <? 1)%Z then (l * Seismic.ninlines s)%Z else l) ;;
     Ok (Seismic.take_axis0 (Seismic.data s) i)).
Proof.
  intros Hsh Hdir. unfold Seismic.get_line, Seismic.ndim, Np.ndim.
  unfold Seismic.shape in *. rewrite Hsh. simpl Nat.ltb. cbv iota.
  assert (Hin : match direction with
                | None => Ok true
                | Some dir => c <- Seismic.first_char (Seismic.lower dir) ;;
                              Ok (Ascii.eqb c "i"%char)
                end = Ok true).
  { destruct direction as [[|c rest]|]; simpl in *; try contradiction; auto.
    rewrite Hdir. reflexivity. }
  rewrite Hin. simpl bind. simpl hd.
  destruct (l <? 1)%Z; reflexivity.
Qed.

Lemma get_line_xline_int s l direction n0 n1 n2 :
  Seismic.shape s = [n0; n1; n2] -> xline_direction direction ->
  Seismic.get_line s (Seismic.PyInt l) direction
  = (j <- Np.index n1 (if (l <? 1)%Z then (l * Seismic.nxlines s)%Z else l) ;;
     Ok (Seismic.take_axis1 (Seismic.data s) j)).
Proof.
  intros Hsh Hdir. unfold Seismic.get_line, Seismic.ndim, Np.ndim.
  unfold Seismic.shape in *. rewrite Hsh. simpl Nat.ltb. cbv iota.
  destruct direction as [[|c rest]|]; simpl in Hdir; try contradiction.
  simpl Seismic.lower. simpl Seismic.first_char. simpl bind.
  replace (Ascii.eqb (Seismic.lower_ascii c) "i") with false
    by (symmetry; apply Ascii.eqb_neq; exact Hdir).
  simpl hd. simpl tl. destruct (l <? 1)%Z; reflexivity.
Qed.

Lemma index_in_range n i :
  (0 <= i < Z.of_nat n)%Z -> Np.index n i = Ok (Z.to_nat i).
Proof.
  intros H. unfold Np.index.
  replace ((0 <=? i)%Z && (i <? Z.of_nat n)%Z) with true; [reflexivity|].
  symmetry. apply andb_true_iff. split; [apply Z.leb_le | apply Z.ltb_lt]; lia.
Qed.

Lemma index_from_end n i :
  (- Z.of_nat n <= i < 0)%Z -> Np.index n i = Ok (Z.to_nat (i + Z.of_nat n)).
Proof.
  intros H. unfold Np.index.
  replace ((0 <=? i)%Z && (i <? Z.of_nat n)%Z) with false
    by (symmetry; apply andb_false_iff; left; apply Z.leb_gt; lia).
  replace ((- Z.of_nat n <=? i)%Z && (i <? 0)%Z) with true; [reflexivity|].
  symmetry. apply andb_true_iff. split; [apply Z.leb_le | apply Z.ltb_lt]; lia.
Qed.

Lemma index_out_of_range n i :
  (i < - Z.of_nat n \/ Z.of_nat n <= i)%Z -> Np.index n i = Raise IndexError.
Proof.
  intros H. unfold Np.index.
  replace ((0 <=? i)%Z && (i <? Z.of_nat n)%Z) with false.
  - replace ((- Z.of_nat n <=? i)%Z && (i <? 0)%Z) with false; [reflexivity|].
    symmetry. apply andb_false_iff.
    destruct H; [left; apply Z.leb_gt | right; apply Z.ltb_ge]; lia.
  - symmetry. apply andb_false_iff.
    destruct H; [left; apply Z.leb_gt | right; apply Z.ltb_ge]; lia.
Qed.

(** A trace of a block of traces. *)
Lemma trace_of_block (L : list Q) ns nx b j :
  (j < nx)%nat ->
  firstn ns (skipn (j * ns) (firstn (nx * ns) (skipn (b * (nx * ns)) L)))
  = firstn ns (skipn ((b * nx + j) * ns) L).
Proof.
  intros Hj. rewrite skipn_firstn_comm, firstn_firstn, skipn_skipn.
  replace (Nat.min ns (nx * ns - j * ns)) with ns by nia.
  f_equal. f_equal. nia.
Qed.

(** X11. An inline of a constructed volume is a run of consecutive input
    traces: for an [int] [l] from 1 up to the last index, [get_line] along
    the inlines returns an array of shape [(nxlines, nsamples)] whose
    trace [j] is the input trace [l * nxlines + j]. *)
Theorem get_line_inline_traces d params log s n ns l direction :
  Seismic.init d params = (log, Ok s) ->
  Np.shape d = [n; ns] ->
  (1 <= l < Seismic.ninlines s)%Z -> inline_direction direction ->
  exists line,
    Seismic.get_line s (Seismic.PyInt l) direction = Ok line /\
    Np.shape line = [Z.to_nat (Seismic.nxlines s); ns] /\
    forall j, (j < Z.to_nat (Seismic.nxlines s))%nat ->
      trace_of ns line j
      = trace_of ns d (Z.to_nat l * Z.to_nat (Seismic.nxlines s) + j).
Proof.
  intros H Hsh Hl Hdir.
  destruct (init_volume d params log s n ns H Hsh ltac:(lia))
    as (Hnx & Hshape & Hflat & Hprod).
  rewrite (get_line_inline_int s l direction _ _ _ Hshape Hdir).
  replace (l <? 1)%Z with false by (symmetry; apply Z.ltb_ge; lia).
  rewrite index_in_range by lia. simpl bind.
  eexists. split; [reflexivity|].
  unfold Seismic.take_axis0. rewrite Hshape. simpl tl. simpl Np.prod.
  rewrite Nat.mul_1_r. split; [reflexivity|].
  intros j Hj. unfold trace_of. simpl Np.flat. rewrite Hflat.
  apply trace_of_block. exact Hj.
Qed.

Lemma get_line_inline_traces_witness :
  exists s line,
    Seismic.init (Sample.traces 6 2) (Sample.counts (Some 3%Z) None None)
      = ([Seismic.Nxlines_changed 2], Ok s) /\
    Seismic.get_line s (Seismic.PyInt 1) None = Ok line /\
    Np.shape line = [2; 2]%nat /\
    trace_of 2 line 1 = trace_of 2 (Sample.traces 6 2) 3.
Proof.
  eexists.
  destruct (get_line_inline_traces (Sample.traces 6 2)
              (Sample.counts (Some 3%Z) None None) _ _ 6 2 1 None
              ltac:(vm_compute; reflexivity) ltac:(reflexivity)
              ltac:(simpl; lia) I) as (line & Hg & Hsh & Htr).
  exists line. split; [reflexivity|]. split; [exact Hg|]. split; [exact Hsh|].
  apply (Htr 1%nat). simpl. lia.
Defined.

(** Equal chunks laid end to end: the [i]-th chunk is where it was put. *)
Lemma flat_map_chunk (g : nat -> list Q) ns : forall l i,
  (forall k, In k l -> length (g k) = ns) -> (i < length l)%nat ->
  firstn ns (skipn (i * ns) (flat_map g l)) = g (nth i l 0%nat).
Proof.
  induction l as [|a l IH]; intros i Hg Hi; simpl in Hi; [lia|].
  assert (Ha : length (g a) = ns) by (apply Hg; left; reflexivity).
  simpl flat_map. destruct i as [|i].
  - simpl. rewrite firstn_app, Ha, Nat.sub_diag. simpl.
    rewrite app_nil_r. rewrite <- Ha. apply firstn_all.
  - rewrite skipn_app, Ha.
    replace (skipn (S i * ns) (g a)) with (@nil Q)
      by (symmetry; apply skipn_all2; simpl; lia).
    replace (S i * ns - ns)%nat with (i * ns)%nat by (simpl; lia).
    simpl app. apply IH; [intros k Hk; apply Hg; right; exact Hk | lia].
Qed.

Lemma length_firstn_skipn (L : list Q) a ns :
  (a + ns <= length L)%nat -> length (firstn ns (skipn a L)) = ns.
Proof.
  intros H. rewrite length_firstn, length_skipn. lia.
Qed.

(** X12. A crossline of a constructed volume takes one trace from every
    inline: for an [int] [l] from 1 up to the last index, [get_line] in a
    direction other than i returns an array of shape
    [(ninlines, nsamples)] whose trace [i] is the input trace
    [i * nxlines + l]. *)
Theorem get_line_xline_traces d params log s n ns l direction :
  Seismic.init d params = (log, Ok s) ->
  Np.shape d = [n; ns] -> (0 < ns)%nat -> length (Np.flat d) = (n * ns)%nat ->
  (1 < Seismic.ninlines s)%Z ->
  (1 <= l < Seismic.nxlines s)%Z -> xline_direction direction ->
  exists line,
    Seismic.get_line s (Seismic.PyInt l) direction = Ok line /\
    Np.shape line = [Z.to_nat (Seismic.ninlines s); ns] /\
    forall i, (i < Z.to_nat (Seismic.ninlines s))%nat ->
      trace_of ns line i
      = trace_of ns d (i * Z.to_nat (Seismic.nxlines s) + Z.to_nat l).
Proof.
  intros H Hsh Hns Hwf Hnin Hl Hdir.
  destruct (init_volume d params log s n ns H Hsh Hnin)
    as (Hnx & Hshape & Hflat & Hprod).
  specialize (Hprod Hns).
  rewrite (get_line_xline_int s l direction _ _ _ Hshape Hdir).
  replace (l <? 1)%Z with false by (symmetry; apply Z.ltb_ge; lia).
  rewrite index_in_range by lia. simpl bind.
  eexists. split; [reflexivity|].
  unfold Seismic.take_axis1. rewrite Hshape. simpl hd. simpl tl. simpl Np.prod.
  rewrite Nat.mul_1_r. split; [reflexivity|].
  intros i Hi. unfold trace_of. simpl Np.flat. rewrite Hflat.
  set (nin := Z.to_nat (Seismic.ninlines s)) in *.
  set (nx := Z.to_nat (Seismic.nxlines s)) in *.
  rewrite (flat_map_chunk
             (fun i => firstn ns (skipn ((i * nx + Z.to_nat l) * ns) (Np.flat d))) ns).
  - rewrite seq_nth by exact Hi. reflexivity.
  - intros k Hk. apply in_seq in Hk. apply length_firstn_skipn.
    rewrite Hwf. assert (Hlx : (Z.to_nat l < nx)%nat) by (unfold nx; lia).
    assert (Hk1 : ((k + 1) * nx <= nin * nx)%nat)
      by (apply Nat.mul_le_mono_r; lia).
    replace ((k * nx + Z.to_nat l) * ns + ns)%nat
      with ((k * nx + Z.to_nat l + 1) * ns)%nat by nia.
    apply Nat.mul_le_mono_r. lia.
  - rewrite length_seq. exact Hi.
Qed.

Lemma get_line_xline_traces_witness :
  exists s line,
    Seismic.init (Sample.traces 6 2) (Sample.counts (Some 3%Z) None None)
      = ([Seismic.Nxlines_changed 2], Ok s) /\
    Seismic.get_line s (Seismic.PyInt 1) (Some "x"%string) = Ok line /\
    Np.shape line = [3; 2]%nat /\
    trace_of 2 line 2 = trace_of 2 (Sample.traces 6 2) 5.
Proof.
  eexists.
  destruct (get_line_xline_traces (Sample.traces 6 2)
              (Sample.counts (Some 3%Z) None None) _ _ 6 2 1 (Some "x"%string)
              ltac:(vm_compute; reflexivity) ltac:(reflexivity)
              ltac:(lia) ltac:(reflexivity) ltac:(simpl; lia) ltac:(simpl; lia)
              ltac:(simpl; discriminate)) as (line & Hg & Hsh & Htr).
  exists line. split; [reflexivity|]. split; [exact Hg|]. split; [exact Hsh|].
  apply (Htr 2%nat). simpl. lia.
Defined.

(** X13. [int] line numbers at the ends of the inline axis: [l = 0] and
    [l = -1] (scaled to [-ninlines], counted from the end) both return the
    first inline, and every [l <= -2] or [l >= ninlines] raises
    IndexError. *)
Theorem get_line_inline_below_one d params log s n ns direction :
  Seismic.init d params = (log, Ok s) ->
  Np.shape d = [n; ns] -> (1 < Seismic.ninlines s)%Z ->
  inline_direction direction ->
  Seismic.get_line s (Seismic.PyInt 0) direction
    = Ok (Seismic.take_axis0 (Seismic.data s) 0) /\
  Seismic.get_line s (Seismic.PyInt (-1)) direction
    = Ok (Seismic.take_axis0 (Seismic.data s) 0) /\
  forall l, (l <= -2 \/ Seismic.ninlines s <= l)%Z ->
    Seismic.get_line s (Seismic.PyInt l) direction = Raise IndexError.
Proof.
  intros H Hsh Hnin Hdir.
  destruct (init_volume d params log s n ns H Hsh Hnin)
    as (Hnx & Hshape & Hflat & _).
  repeat split.
  - rewrite (get_line_inline_int s 0 direction _ _ _ Hshape Hdir).
    change (0 <? 1)%Z with true. cbv iota. rewrite Z.mul_0_l.
    rewrite index_in_range by lia. reflexivity.
  - rewrite (get_line_inline_int s (-1) direction _ _ _ Hshape Hdir).
    change (-1 <? 1)%Z with true. cbv iota.
    rewrite index_from_end by lia. cbv [bind]. do 2 f_equal. lia.
  - intros l Hl.
    rewrite (get_line_inline_int s l direction _ _ _ Hshape Hdir).
    destruct (Z.ltb_spec l 1) as [Hlt|Hge].
    + rewrite index_out_of_range; [reflexivity|]. left. nia.
    + rewrite index_out_of_range; [reflexivity|]. right. lia.
Qed.

Lemma get_line_inline_below_one_witness :
  exists s,
    Seismic.init (Sample.traces 6 2) (Sample.counts (Some 3%Z) None None)
      = ([Seismic.Nxlines_changed 2], Ok s) /\
    Seismic.get_line s (Seismic.PyInt (-1)) None
      = Seismic.get_line s (Seismic.PyInt 0) None /\
    Seismic.get_line s (Seismic.PyInt (-2)) None = Raise IndexError /\
    Seismic.get_line s (Seismic.PyInt 3) None = Raise IndexError.
Proof.
  eexists.
  destruct (get_line_inline_below_one (Sample.traces 6 2)
              (Sample.counts (Some 3%Z) None None) _ _ 6 2 None
              ltac:(vm_compute; reflexivity) ltac:(reflexivity)
              ltac:(simpl; lia) I) as (H0 & H1 & Hout).
  split; [reflexivity|]. split; [exact (eq_trans H1 (eq_sym H0))|].
  split; apply Hout; simpl; lia.
Defined.

(** X14. On a model whose data has fewer than three axes, [get_line]
    returns the whole data array as it was supplied, whatever [l] (also a
    [float] or an index out of range) and whatever direction (also an
    empty one). *)
Theorem get_line_two_axes d params log s l direction :
  Seismic.init d params = (log, Ok s) ->
  (Np.ndim d < 3)%nat -> (Seismic.ninlines s <= 1)%Z ->
  Seismic.get_line s l direction = Ok d.
Proof.
  intros H Hnd Hnin. apply init_inv in H.
  destruct H as (n0 & nl & log1 & log2 & _ & _ & _ & _ & Hnx & _).
  unfold Seismic.resolve_nxlines in Hnx.
  replace (Seismic.ninlines s >? 1)%Z with false in Hnx
    by (symmetry; rewrite Z.gtb_ltb; apply Z.ltb_ge; lia).
  injection Hnx as _ _ Hd.
  unfold Seismic.get_line, Seismic.ndim. rewrite <- Hd.
  replace (Np.ndim d <? 3)%nat with true by (symmetry; apply Nat.ltb_lt; exact Hnd).
  reflexivity.
Qed.

Lemma get_line_two_axes_witness :
  exists s,
    Seismic.init (Sample.traces 3 2) (Sample.counts None None None) = ([], Ok s) /\
    Seismic.get_line s (Seismic.PyFloat (1 # 2)) (Some ""%string)
      = Ok (Sample.traces 3 2).
Proof.
  eexists. split; [vm_compute; reflexivity|].
  apply (get_line_two_axes (Sample.traces 3 2) (Sample.counts None None None) []).
  - vm_compute. reflexivity.
  - vm_compute. lia.
  - vm_compute. discriminate.
Defined.

(** ** More on the spectrum *)

(** [np.argmax]: the first index that holds the maximum. *)
Lemma argmax_from_spec l : forall i best m,
  (Np.argmax_from l i best m = best /\ forall x, In x l -> x <= m) \/
  (exists k, Np.argmax_from l i best m = (i + k)%nat /\ (k < length l)%nat /\
             m < nth k l 0 /\
             (forall x, In x l -> x <= nth k l 0) /\
             (forall j, (j < k)%nat -> nth j l 0 < nth k l 0)).
Proof.
  induction l as [|x l IH]; intros i best m; simpl.
  - left. split; [reflexivity | intros x []].
  - destruct (Qltb m x) eqn:E.
    + apply Qltb_lt in E. right.
      destruct (IH (S i) i x) as [[Hr Hall]|(k & Hr & Hk & Hlt & Hall & Hfirst)].
      * exists 0%nat. rewrite Hr. repeat split; simpl; try lia; auto.
        intros y [<-|Hy]; [apply Qle_refl | apply Hall, Hy].
      * exists (S k). rewrite Hr. repeat split; simpl; try lia.
        -- lra.
        -- intros y [<-|Hy]; [lra | apply Hall, Hy].
        -- intros [|j] Hj; [lra | apply Hfirst; lia].
    + apply Qltb_ge in E.
      destruct (IH (S i) best m) as [[Hr Hall]|(k & Hr & Hk & Hlt & Hall & Hfirst)].
      * left. split; [exact Hr|]. intros y [<-|Hy]; [exact E | apply Hall, Hy].
      * right. exists (S k). rewrite Hr. repeat split; simpl; try lia.
        -- exact Hlt.
        -- intros y [<-|Hy]; [lra | apply Hall, Hy].
        -- intros [|j] Hj; [lra | apply Hfirst; lia].
Qed.

Lemma argmax_spec a i :
  Np.argmax a = Ok i ->
  (i < length a)%nat /\
  (forall j, (j < length a)%nat -> nth j a 0 <= nth i a 0) /\
  (forall j, (j < i)%nat -> nth j a 0 < nth i a 0).
Proof.
  destruct a as [|x l]; [discriminate|]. simpl. intros H. inversion H as [Hi].
  clear H.
  destruct (argmax_from_spec l 1 0 x) as [[Hr Hall]|(k & Hr & Hk & Hlt & Hall & Hfirst)].
  - rewrite Hr in *. repeat split; [lia | | intros j Hj; lia].
    intros [|j] Hj; [apply Qle_refl|]. simpl. apply Hall, nth_In. lia.
  - rewrite Hr in *. repeat split; [lia | |].
    + intros [|j] Hj; simpl; [lra|]. apply Hall, nth_In. lia.
    + intros [|j] Hj; simpl; [exact Hlt | apply Hfirst; lia].
Qed.

(** X15. The peak frequency recorded for a trace in [plot_spectrum] is the
    frequency of the first bin that holds the largest amplitude: no bin
    is higher, and every earlier bin is strictly lower. *)
Theorem peak_is_first_maximum f a lo hi st :
  Seismic.peak_of (f, a, lo, hi) = Ok st ->
  exists i,
    nth_error f i = Some (Seismic.ts_peak st) /\ (i < length a)%nat /\
    (forall j, (j < length a)%nat -> nth j a 0 <= nth i a 0) /\
    (forall j, (j < i)%nat -> nth j a 0 < nth i a 0).
Proof.
  intros H. apply peak_of_inv in H.
  destruct H as (_ & _ & _ & _ & i & Hi & Hp).
  exists i. destruct (argmax_spec a i Hi) as (H1 & H2 & H3).
  repeat split; auto.
  unfold Seismic.item in Hp. destruct (nth_error f i); inversion Hp. reflexivity.
Qed.

Lemma peak_is_first_maximum_witness :
  exists st i,
    Seismic.peak_of ([0; 1 # 4; 1 # 2], [3; 7; 7], 0, 0) = Ok st /\
    Seismic.ts_peak st = 1 # 4 /\
    nth_error [0; 1 # 4; 1 # 2] i = Some (Seismic.ts_peak st) /\
    (forall j, (j < i)%nat -> nth j [3; 7; 7] 0 < nth i [3; 7; 7] 0).
Proof.
  eexists.
  destruct (peak_is_first_maximum [0; 1 # 4; 1 # 2] [3; 7; 7] 0 0 _
              ltac:(vm_compute; reflexivity)) as (i & Hf & _ & _ & Hfirst).
  exists i. split; [reflexivity|]. split; [reflexivity|].
  split; [exact Hf | exact Hfirst].
Defined.

(** [np.interp] never leaves the range of the ordinates. *)
Lemma interp_from_below_bound B rest : forall p0 x,
  chain p0 rest -> (forall p, In p (p0 :: rest) -> snd p <= B) ->
  Np.interp_from x p0 rest <= B.
Proof.
  induction rest as [|p1 rest IH]; intros p0 x Hc HB; simpl.
  - apply HB. left. reflexivity.
  - destruct Hc as (H01 & Hy & Hc). destruct (Qltb x (fst p1)) eqn:E.
    + apply Qltb_lt in E. apply Qle_trans with (snd p1).
      * apply segment_upper; [assumption | assumption | lra].
      * apply HB. right. left. reflexivity.
    + apply IH; [exact Hc|]. intros p Hp. apply HB. right. exact Hp.
Qed.

Lemma interp_bins_bounds f x u A B :
  ascending f -> (forall y, In y f -> A <= y /\ y <= B) ->
  Np.interp x (Seismic.bins (length f)) f = Ok u -> A <= u /\ u <= B.
Proof.
  intros Ha Hb. destruct f as [|y0 f]; [discriminate|].
  rewrite interp_bins_unfold.
  pose proof (chain_points f 0 y0 Ha) as Hc.
  assert (H0 : A <= y0 /\ y0 <= B) by (apply Hb; left; reflexivity).
  destruct (Qltb x (of_nat 0)) eqn:Ex; intros Hu; inversion Hu; subst u.
  - exact H0.
  - apply Qltb_ge in Ex. split.
    + apply Qle_trans with y0; [tauto|].
      apply (interp_from_lower _ (of_nat 0, y0) x Hc Ex).
    + apply interp_from_below_bound; [exact Hc|].
      intros p [<-|Hp]; [simpl; tauto|].
      destruct p as [px py]. apply in_combine_r in Hp. simpl.
      apply Hb. right. exact Hp.
Qed.

Lemma band_edges_inv log10 a f r :
  Seismic.band_edges log10 a f = Ok r ->
  exists mi ma lo hi,
    r = (f, a, lo, hi) /\
    Np.interp mi (Seismic.bins (length f)) f = Ok lo /\
    Np.interp ma (Seismic.bins (length f)) f = Ok hi.
Proof.
  intros H. unfold Seismic.band_edges in H.
  apply bind_ok in H. destruct H as (sig & _ & H).
  apply bind_ok in H. destruct H as (mi & _ & H).
  apply bind_ok in H. destruct H as (ma & _ & H).
  apply bind_ok in H. destruct H as (lo & Hlo & H).
  apply bind_ok in H. destruct H as (hi & Hhi & H).
  inversion H. exists mi, ma, lo, hi. auto.
Qed.

(** The frequency axis of [n] samples at the rate [fs]. *)
Lemma rfftfreq_entries n fs d f :
  Seismic.inverse fs = Ok d -> Seismic.rfftfreq n d = Ok f ->
  length f = (n / 2 + 1)%nat /\
  forall k, (k < length f)%nat -> nth k f 0 == of_nat k * (fs / of_nat n).
Proof.
  intros Hd Hf. unfold Seismic.inverse in Hd.
  destruct (Qeq_bool fs 0) eqn:Efs; [discriminate|]. inversion Hd. subst d. clear Hd.
  apply Qeq_bool_neq in Efs.
  unfold Seismic.rfftfreq in Hf. apply bind_ok in Hf.
  destruct Hf as (val & Hval & Hf). inversion Hf. subst f. clear Hf.
  unfold Seismic.inverse in Hval.
  destruct (Qeq_bool (of_nat n * (1 / fs)) 0) eqn:En; [discriminate|].
  apply Qeq_bool_neq in En. inversion Hval. subst val. clear Hval.
  assert (Hn : ~ of_nat n == 0).
  { intros E. apply En. rewrite E. ring. }
  split; [rewrite length_map, length_seq; reflexivity|].
  intros k Hk. rewrite length_map, length_seq in Hk.
  rewrite (nth_indep _ 0 ((fun k => of_nat k * (1 / (of_nat n * (1 / fs)))) 0%nat))
    by (rewrite length_map, length_seq; exact Hk).
  rewrite (map_nth (fun k => of_nat k * (1 / (of_nat n * (1 / fs))))).
  rewrite seq_nth by exact Hk. simpl plus. field. split; assumption.
Qed.

Lemma half_of_nat n : 2 * of_nat (n / 2) <= of_nat n.
Proof.
  unfold of_nat. replace 2 with (inject_Z 2) by reflexivity.
  rewrite <- inject_Z_mult, <- Zle_Qle.
  pose proof (Nat.div_mod_eq n 2). lia.
Qed.

(** Every frequency of the axis is between 0 and half the rate. *)
Lemma rfftfreq_within_nyquist n fs d f y :
  0 < fs -> Seismic.inverse fs = Ok d -> Seismic.rfftfreq n d = Ok f ->
  In y f -> 0 <= y /\ y <= fs / 2.
Proof.
  intros Hfs Hd Hf Hy.
  destruct (rfftfreq_entries n fs d f Hd Hf) as [Hlen Hent].
  apply (In_nth _ _ 0) in Hy. destruct Hy as (k & Hk & <-).
  rewrite (Hent k Hk).
  assert (Hn : 0 < of_nat n).
  { pose proof (of_nat_nonneg n) as H0.
    destruct (Qlt_le_dec 0 (of_nat n)) as [Hlt|Hle]; [exact Hlt|].
    exfalso. unfold Seismic.inverse in Hd.
    destruct (Qeq_bool fs 0); [discriminate|]. inversion Hd. subst d.
    unfold Seismic.rfftfreq in Hf. apply bind_ok in Hf. destruct Hf as (v & Hv & _).
    unfold Seismic.inverse in Hv.
    destruct (Qeq_bool (of_nat n * (1 / fs)) 0) eqn:E; [discriminate|].
    apply Qeq_bool_neq in E. apply E.
    assert (En : of_nat n == 0) by lra. rewrite En. ring. }
  assert (Hr : 0 < fs / of_nat n)
    by (apply Qlt_shift_div_l; [exact Hn | rewrite Qmult_0_l; exact Hfs]).
  pose proof (of_nat_nonneg k) as Hk0.
  assert (Hk2 : of_nat k <= of_nat (n / 2)) by (apply of_nat_le; lia).
  pose proof (half_of_nat n) as Hh.
  split.
  - apply Qmult_le_0_compat; lra.
  - assert (H1 : of_nat k * (fs / of_nat n)
                 <= (of_nat n * (1 # 2)) * (fs / of_nat n)).
    { apply Qmult_le_compat_r; lra. }
    assert (H2 : (of_nat n * (1 # 2)) * (fs / of_nat n) == fs / 2)
      by (field; lra).
    rewrite <- H2. exact H1.
Qed.

(** X16. Besides the edges, [spectrum] returns the magnitudes of the
    transform of the windowed signal and the frequency axis of
    [n // 2 + 1] bins, bin [k] at [k * fs / n], for a signal of [n]
    samples. *)
Theorem spectrum_frequency_axis blackman rfft_abs log10 signal fs f a lo hi :
  Seismic.spectrum blackman rfft_abs log10 signal fs = Ok (f, a, lo, hi) ->
  a = rfft_abs (Seismic.mul signal (blackman (length signal))) /\
  length f = (length signal / 2 + 1)%nat /\
  forall k, (k < length f)%nat ->
    nth k f 0 == of_nat k * (fs / of_nat (length signal)).
Proof.
  intros H. apply spectrum_inv in H.
  destruct H as (a0 & d & f0 & Ha & Hd & Hf & Hb).
  apply band_edges_inv in Hb.
  destruct Hb as (mi & ma & lo' & hi' & Hr & _). inversion Hr. subst.
  split; [reflexivity|]. apply (rfftfreq_entries _ fs d); assumption.
Qed.

Lemma spectrum_frequency_axis_witness :
  exists f a lo hi,
    Seismic.spectrum Sample.blackman Sample.rfft_abs Sample.log10
      [1 # 1000; 1; 1 # 1000; 0] 2 = Ok (f, a, lo, hi) /\
    length f = 3%nat /\ nth 2 f 0 == 1.
Proof.
  eexists. eexists. eexists. eexists. split; [vm_compute; reflexivity|].
  destruct (spectrum_frequency_axis Sample.blackman Sample.rfft_abs Sample.log10
              [1 # 1000; 1; 1 # 1000; 0] 2 _ _ _ _
              ltac:(vm_compute; reflexivity)) as (_ & Hlen & Hent).
  split; [exact Hlen|]. rewrite (Hent 2%nat) by (rewrite Hlen; simpl; lia).
  reflexivity.
Defined.

(** The edges lie where the frequencies of the axis lie, the lower edge
    below the upper one. *)
Lemma band_edges_bounds log10 a0 f0 f a lo hi A B :
  ascending f0 -> (forall y, In y f0 -> A <= y /\ y <= B) ->
  Seismic.band_edges log10 a0 f0 = Ok (f, a, lo, hi) ->
  A <= lo /\ lo <= hi /\ hi <= B.
Proof.
  intros Hasc Hb H.
  pose proof (band_edges_min_le_max log10 a0 f0 f a lo hi Hasc H) as Hle.
  apply band_edges_inv in H.
  destruct H as (mi & ma & lo' & hi' & Hr & Hlo & Hhi). inversion Hr. subst.
  destruct (interp_bins_bounds f0 mi lo' A B Hasc Hb Hlo) as [H1 _].
  destruct (interp_bins_bounds f0 ma hi' A B Hasc Hb Hhi) as [_ H2].
  auto.
Qed.

(** X17. For a positive sample rate [fs], the band edges [spectrum]
    returns are frequencies between 0 and the Nyquist frequency:
    [0 <= f_min <= f_max <= fs / 2]. *)
Theorem spectrum_edges_within_nyquist blackman rfft_abs log10 signal fs f a lo hi :
  0 < fs ->
  Seismic.spectrum blackman rfft_abs log10 signal fs = Ok (f, a, lo, hi) ->
  0 <= lo /\ lo <= hi /\ hi <= fs / 2.
Proof.
  intros Hfs H. apply spectrum_inv in H.
  destruct H as (a0 & d & f0 & Ha & Hd & Hf & Hb).
  pose proof (rfftfreq_ascending _ _ _ (inverse_pos _ _ Hfs Hd) Hf) as Hasc.
  apply (band_edges_bounds log10 a0 f0 f a lo hi 0 (fs / 2) Hasc); [|exact Hb].
  intros y. apply (rfftfreq_within_nyquist (length signal) fs d f0); assumption.
Qed.

Lemma spectrum_edges_within_nyquist_witness :
  exists f a lo hi,
    Seismic.spectrum Sample.blackman Sample.rfft_abs Sample.log10
      [1 # 1000; 1; 1 # 1000; 0] 2 = Ok (f, a, lo, hi) /\
    0 <= lo /\ lo <= hi /\ hi <= 2 / 2.
Proof.
  eexists. eexists. eexists. eexists. split; [vm_compute; reflexivity|].
  apply (spectrum_edges_within_nyquist Sample.blackman Sample.rfft_abs Sample.log10
           [1 # 1000; 1; 1 # 1000; 0] 2 _ _ _ _ ltac:(reflexivity)
           ltac:(vm_compute; reflexivity)).
Defined.

(** X18. What [spectrum] raises before it looks for crossings: an empty
    signal ends in the ValueError of the transform, and a sample rate of
    0 in the ZeroDivisionError of [1 / fs], once the transform of a
    signal that is not empty has been taken. *)
Theorem spectrum_raises_early blackman rfft_abs log10 signal fs :
  Seismic.spectrum blackman rfft_abs log10 [] fs = Raise ValueError /\
  (Seismic.mul signal (blackman (length signal)) <> [] -> fs == 0 ->
   Seismic.spectrum blackman rfft_abs log10 signal fs = Raise ZeroDivisionError).
Proof.
  split; [reflexivity|]. intros Hw Hfs. unfold Seismic.spectrum.
  destruct (Seismic.mul signal (blackman (length signal))); [contradiction|].
  simpl bind. unfold Seismic.inverse.
  apply Qeq_bool_iff in Hfs. rewrite Hfs. reflexivity.
Qed.

Lemma spectrum_raises_early_witness :
  Seismic.spectrum Sample.blackman Sample.rfft_abs Sample.log10 [1; 2] 0
    = Raise ZeroDivisionError.
Proof.
  apply (spectrum_raises_early Sample.blackman Sample.rfft_abs Sample.log10 [1; 2] 0);
    [discriminate | reflexivity].
Defined.

(** ** More on the ensemble *)

(** X19. The [f_min] and [f_max] that [plot_spectrum] reports are the
    envelope of the selected traces' band edges: [f_min] is the lower
    edge of one of the traces and none has a lower one, [f_max] is the
    upper edge of one of them and none has a higher one. *)
Theorem plot_spectrum_envelope blackman rfft_abs log10 s trace_indices p :
  Seismic.plot_spectrum blackman rfft_abs log10 s trace_indices = Ok p ->
  exists fs rs,
    Seismic.inverse (Seismic.dt s) = Ok fs /\
    Forall2 (fun ti r =>
               exists trace, Seismic.column (Seismic.data s) ti = Ok trace /\
                 Seismic.trace_spectrum blackman rfft_abs log10 trace fs = Ok r)
            trace_indices rs /\
    (exists r, In r rs /\ Seismic.f_min p = Seismic.ts_min r) /\
    (forall r, In r rs -> Seismic.f_min p <= Seismic.ts_min r) /\
    (exists r, In r rs /\ Seismic.f_max p = Seismic.ts_max r) /\
    (forall r, In r rs -> Seismic.ts_max r <= Seismic.f_max p).
Proof.
  intros H. apply plot_spectrum_inv in H.
  destruct H as (fs & rs & Hfs & Hrs & Hsum).
  apply summarise_inv in Hsum.
  destruct Hsum as (final & before & _ & _ & _ & _ & Hmin & Hmax).
  destruct (amin_spec _ _ Hmin) as [Hlo_in Hlo].
  destruct (amax_spec _ _ Hmax) as [Hhi_in Hhi].
  apply in_map_iff in Hlo_in. destruct Hlo_in as (rlo & Elo & Hrlo).
  apply in_map_iff in Hhi_in. destruct Hhi_in as (rhi & Ehi & Hrhi).
  exists fs, rs. repeat split; auto.
  - exists rlo. auto.
  - intros r Hr. apply Hlo, in_map, Hr.
  - exists rhi. auto.
  - intros r Hr. apply Hhi, in_map, Hr.
Qed.

Lemma plot_spectrum_envelope_witness :
  exists p rs,
    Seismic.plot_spectrum Sample.blackman Sample.rfft_abs Sample.log10
      Sample.section [0%Z; 1%Z] = Ok p /\
    Seismic.f_min p == 1 # 6 /\
    (exists r, In r rs /\ Seismic.f_min p = Seismic.ts_min r) /\
    (forall r, In r rs -> Seismic.ts_max r <= Seismic.f_max p).
Proof.
  eexists.
  destruct (plot_spectrum_envelope Sample.blackman Sample.rfft_abs Sample.log10
              Sample.section [0%Z; 1%Z] _ ltac:(vm_compute; reflexivity))
    as (fs & rs & _ & _ & Hlo & _ & _ & Hhi).
  exists rs. split; [reflexivity|]. split; [reflexivity|].
  split; [exact Hlo | exact Hhi].
Defined.

(** The mean of some numbers is among them. *)
Lemma Qsum_bounds A B l :
  (forall x, In x l -> A <= x /\ x <= B) ->
  of_nat (length l) * A <= Np.Qsum l /\ Np.Qsum l <= of_nat (length l) * B.
Proof.
  induction l as [|x l IH]; intros H.
  - simpl. change (of_nat 0) with 0. split; lra.
  - destruct IH as [IH1 IH2]; [intros y Hy; apply H; right; exact Hy|].
    destruct (H x (or_introl eq_refl)) as [Hx1 Hx2].
    simpl length. simpl Np.Qsum. rewrite of_nat_S. split; lra.
Qed.

Lemma mean_bounds A B l :
  l <> [] -> (forall x, In x l -> A <= x /\ x <= B) ->
  A <= Np.mean l /\ Np.mean l <= B.
Proof.
  intros Hne H. destruct (Qsum_bounds A B l H) as [H1 H2].
  assert (Hn : 0 < of_nat (length l)).
  { destruct l; [contradiction|]. simpl length. rewrite of_nat_S.
    pose proof (of_nat_nonneg (length l)). lra. }
  unfold Np.mean. split.
  - apply Qle_shift_div_l; [exact Hn|]. lra.
  - apply Qle_shift_div_r; [exact Hn|]. lra.
Qed.

(** X20. For a positive sample interval, every frequency that
    [plot_spectrum] reports lies between 0 and the Nyquist frequency
    [1 / (2 dt)]: [f_min] and [f_peak] are not negative, [f_max] and
    [f_peak] do not exceed it. *)
Theorem plot_spectrum_within_nyquist blackman rfft_abs log10 s trace_indices p :
  0 < Seismic.dt s ->
  Seismic.plot_spectrum blackman rfft_abs log10 s trace_indices = Ok p ->
  let nyquist := (1 / Seismic.dt s) / 2 in
  0 <= Seismic.f_min p /\ Seismic.f_max p <= nyquist /\
  0 <= Seismic.f_peak p /\ Seismic.f_peak p <= nyquist.
Proof.
  intros Hdt H nyquist. apply plot_spectrum_inv in H.
  destruct H as (fs & rs & Hfs & Hrs & Hsum).
  assert (Efs : fs = 1 / Seismic.dt s).
  { unfold Seismic.inverse in Hfs. destruct (Qeq_bool (Seismic.dt s) 0);
      inversion Hfs. reflexivity. }
  pose proof (inverse_pos _ _ Hdt Hfs) as Hpos.
  assert (Hall : forall r, In r rs ->
            (0 <= Seismic.ts_min r /\ Seismic.ts_max r <= fs / 2) /\
            (0 <= Seismic.ts_peak r /\ Seismic.ts_peak r <= fs / 2)).
  { clear - Hrs Hpos. induction Hrs as [|ti r tis rs' Hr _ IH]; [intros r []|].
    intros r' [<-|Hin]; [|apply IH; exact Hin].
    destruct Hr as (trace & _ & Hr). unfold Seismic.trace_spectrum in Hr.
    apply bind_ok in Hr. destruct Hr as ([[[f a] lo] hi] & Hs & Hp).
    apply spectrum_inv in Hs. destruct Hs as (a0 & d & f0 & _ & Hd & Hf & Hb).
    pose proof (rfftfreq_ascending _ _ _ (inverse_pos _ _ Hpos Hd) Hf) as Hasc.
    assert (Hin : forall y, In y f0 -> 0 <= y /\ y <= fs / 2)
      by (intros y; apply (rfftfreq_within_nyquist (length trace) fs d f0);
          assumption).
    destruct (band_edges_bounds log10 a0 f0 f a lo hi 0 (fs / 2) Hasc Hin Hb)
      as (H1 & H2 & H3).
    apply band_edges_inv in Hb. destruct Hb as (mi & ma & lo' & hi' & E & _).
    inversion E. subst f0 a0 lo' hi'.
    apply peak_of_inv in Hp. destruct Hp as (_ & _ & -> & -> & i & _ & Hi).
    split; [auto|].
    apply (rfftfreq_within_nyquist (length trace) fs d f); try assumption.
    unfold Seismic.item in Hi. destruct (nth_error f i) eqn:E'; inversion Hi.
    subst. apply nth_error_In in E'. exact E'. }
  apply summarise_inv in Hsum.
  destruct Hsum as (final & before & Hrev & _ & _ & Hpk & Hmin & Hmax).
  assert (Hne : rs <> []).
  { intros E. rewrite E in Hrev. discriminate. }
  destruct (amin_spec _ _ Hmin) as [Hlo_in _].
  destruct (amax_spec _ _ Hmax) as [Hhi_in _].
  apply in_map_iff in Hlo_in. destruct Hlo_in as (rlo & Elo & Hrlo).
  apply in_map_iff in Hhi_in. destruct Hhi_in as (rhi & Ehi & Hrhi).
  unfold nyquist. rewrite <- Efs, <- Elo, <- Ehi, Hpk.
  split; [apply (Hall rlo Hrlo)|]. split; [apply (Hall rhi Hrhi)|].
  apply mean_bounds.
  - destruct rs; [contradiction | discriminate].
  - intros x Hx. apply in_map_iff in Hx. destruct Hx as (r & <- & Hr).
    apply (Hall r Hr).
Qed.

Lemma plot_spectrum_within_nyquist_witness :
  exists p,
    Seismic.plot_spectrum Sample.blackman Sample.rfft_abs Sample.log10
      Sample.section [0%Z; 1%Z] = Ok p /\
    0 <= Seismic.f_peak p /\ Seismic.f_peak p <= (1 / 1) / 2.
Proof.
  eexists. split; [vm_compute; reflexivity|].
  destruct (plot_spectrum_within_nyquist Sample.blackman Sample.rfft_abs
              Sample.log10 Sample.section [0%Z; 1%Z] _ ltac:(reflexivity)
              ltac:(vm_compute; reflexivity)) as (_ & _ & H1 & H2).
  split; [exact H1 | exact H2].
Defined.

(** X21. With no trace selected, on data of at least two axes and a
    sample interval other than 0, [plot_spectrum] raises ValueError (there
    is nothing to stack) and reports nothing. *)
Theorem plot_spectrum_no_trace blackman rfft_abs log10 s n0 n1 rest :
  Np.shape (Seismic.data s) = n0 :: n1 :: rest ->
  ~ Seismic.dt s == 0 ->
  Seismic.plot_spectrum blackman rfft_abs log10 s [] = Raise ValueError.
Proof.
  intros Hsh Hdt. unfold Seismic.plot_spectrum. rewrite Hsh. simpl bind.
  unfold Seismic.inverse.
  replace (Qeq_bool (Seismic.dt s) 0) with false
    by (symmetry; apply not_true_is_false; intros E; apply Hdt, Qeq_bool_iff, E).
  reflexivity.
Qed.

Lemma plot_spectrum_no_trace_witness :
  Seismic.plot_spectrum Sample.blackman Sample.rfft_abs Sample.log10
    Sample.section [] = Raise ValueError.
Proof.
  apply (plot_spectrum_no_trace Sample.blackman Sample.rfft_abs Sample.log10
           Sample.section 4 2 []); [reflexivity | discriminate].
Defined.

(** ** What [from_obspy] prepares *)

(** X22. [from_obspy] always hands [ninlines = 1] to the constructor:
    neither a [ninlines] of the caller nor the inline numbers found in the
    trace headers reach it, so that the inline count of a volume read this
    way is the one the constructor derives from [nxlines]. *)
Theorem from_obspy_ninlines_is_one params sawtooth monotonic stairstep :
  Seismic.p_ninlines
    (Seismic.from_obspy_params params sawtooth monotonic stairstep) = Some 1%Z.
Proof.
  unfold Seismic.from_obspy_params.
  destruct (Seismic.any sawtooth); [|destruct (Seismic.any monotonic)];
    simpl; try destruct (Seismic.any stairstep); reflexivity.
Qed.




(** ** The sample interval in seconds *)

Lemma seconds_loop_trace : forall turns dt,
  exists k, (k <= turns)%nat /\
    Seismic.seconds_loop turns dt = Nat.iter k milli dt /\
    (forall j, (j < k)%nat -> 2 # 100 < Nat.iter j milli dt) /\
    ((k < turns)%nat -> Nat.iter k milli dt <= 2 # 100).
Proof.
  induction turns as [|turns IH]; intros dt.
  - exists 0%nat. repeat split; auto; intros; lia.
  - simpl. destruct (Qltb (2 # 100) dt) eqn:E.
    + destruct (IH (dt * (1 # 1000))) as (k & Hk & Heq & Hlt & Hle).
      exists (S k). rewrite Nat.iter_succ_r. repeat split.
      * lia.
      * exact Heq.
      * intros [|j] Hj; [apply Qltb_lt, E|].
        rewrite Nat.iter_succ_r. apply Hlt. lia.
      * intros H. apply Hle. lia.
    + exists 0%nat. repeat split; [lia | intros; lia |].
      intros _. apply Qltb_ge, E.
Qed.

Lemma iter_milli_S k x : Nat.iter (S k) milli x == Nat.iter k milli x * (1 # 1000).
Proof. simpl. unfold milli at 1. reflexivity. Qed.

Lemma iter_milli_nonneg k x : 0 <= x -> 0 <= Nat.iter k milli x.
Proof.
  intros Hx. induction k as [|k IH]; [exact Hx|].
  rewrite iter_milli_S. lra.
Qed.

(** A thousandth of [x], [k] times, is at most [x / (k + 1)] for [x >= 0]. *)
Lemma iter_milli_bound : forall k x,
  0 <= x -> Nat.iter k milli x * of_nat (S k) <= x.
Proof.
  induction k as [|k IH]; intros x Hx.
  - simpl Nat.iter. change (of_nat 1) with 1. lra.
  - rewrite iter_milli_S. specialize (IH x Hx).
    rewrite (of_nat_S (S k)).
    pose proof (iter_milli_nonneg k x Hx) as H0.
    assert (H1 : 1 <= of_nat (S k)).
    { rewrite of_nat_S. pose proof (of_nat_nonneg k). lra. }
    assert (H2 : 0 <= Nat.iter k milli x * (of_nat (S k) - 1)).
    { apply Qmult_le_0_compat; lra. }
    assert (E : Nat.iter k milli x * (1 # 1000) * (of_nat (S k) + 1)
                == (1 # 1000) * (Nat.iter k milli x * of_nat (S k))
                   + (1 # 1000) * Nat.iter k milli x) by ring.
    rewrite E.
    assert (E2 : Nat.iter k milli x * (of_nat (S k) - 1)
                 == Nat.iter k milli x * of_nat (S k) - Nat.iter k milli x) by ring.
    rewrite E2 in H2. lra.
Qed.

Lemma le_ceiling_nat x : x <= of_nat (Z.to_nat (Qceiling x)).
Proof.
  apply Qle_trans with (inject_Z (Qceiling x)); [apply Qle_ceiling|].
  unfold of_nat. rewrite <- Zle_Qle. lia.
Qed.

(** The loop has left within [ceil(dt)] turns. *)
Lemma seconds_loop_exits turns dt :
  dt <= of_nat turns -> Seismic.seconds_loop turns dt <= 2 # 100.
Proof.
  intros Hdt.
  destruct (seconds_loop_trace turns dt) as (k & Hk & Heq & Hlt & Hle).
  rewrite Heq.
  destruct (Nat.eq_dec k turns) as [->|Hne]; [|apply Hle; lia].
  destruct turns as [|turns].
  - simpl. change (of_nat 0) with 0 in Hdt. lra.
  - assert (Hpos : 0 <= dt).
    { specialize (Hlt 0%nat ltac:(lia)). simpl in Hlt. lra. }
    pose proof (iter_milli_bound (S turns) dt Hpos) as Hb.
    pose proof (iter_milli_nonneg (S turns) dt Hpos) as Hn.
    rewrite (of_nat_S (S turns)) in Hb.
    rewrite iter_milli_S in *.
    pose proof (iter_milli_bound turns dt Hpos) as Hb'.
    pose proof (iter_milli_nonneg turns dt Hpos) as Hn'.
    set (y := Nat.iter turns milli dt) in *.
    assert (H1 : y * of_nat (S turns) <= of_nat (S turns)) by lra.
    assert (H2 : 1 <= of_nat (S turns)).
    { rewrite of_nat_S. pose proof (of_nat_nonneg turns). lra. }
    assert (H3 : y <= 1).
    { destruct (Qlt_le_dec 1 y) as [Hy|Hy]; [|exact Hy].
      exfalso.
      assert (0 < (y - 1) * of_nat (S turns)).
      { apply Qmult_lt_0_compat; lra. }
      assert (E : (y - 1) * of_nat (S turns)
                  == y * of_nat (S turns) - of_nat (S turns)) by ring.
      rewrite E in H. lra. }
    lra.
Qed.

(** X24. The loop of [from_obspy] that brings [dt] to seconds ends for
    every [dt], with a sample interval of at most 0.02: the result is [dt]
    taken a thousandth of [k] times, for the least [k] that brings it to
    0.02 or below (every earlier value exceeds 0.02); a [dt] of at most
    0.02, also a zero or negative one, is returned unchanged. *)
Theorem seconds_exits dt :
  Seismic.seconds dt <= 2 # 100 /\
  (exists k,
     Seismic.seconds dt = Nat.iter k milli dt /\
     forall j, (j < k)%nat -> 2 # 100 < Nat.iter j milli dt) /\
  (dt <= 2 # 100 -> Seismic.seconds dt = dt).
Proof.
  destruct (seconds_loop_trace (Z.to_nat (Qceiling dt)) dt)
    as (k & _ & Heq & Hlt & _).
  split; [apply seconds_loop_exits, le_ceiling_nat|].
  split; [exists k; split; [exact Heq | exact Hlt]|].
  intros Hle. destruct k as [|k]; [exact Heq|].
  specialize (Hlt 0%nat (Nat.lt_0_succ k)). simpl in Hlt. lra.
Qed.

Lemma seconds_exits_witness :
  Seismic.seconds (4 # 1000) = 4 # 1000 /\ Seismic.seconds 4000 <= 2 # 100.
Proof.
  split.
  - apply (seconds_exits (4 # 1000)). vm_compute. discriminate.
  - apply (seconds_exits 4000).
Defined.

(** A sample interval in microseconds, in milliseconds or in seconds comes
    out in seconds. *)
Example seconds_of_microseconds :
  Seismic.seconds 4000 == 4 # 1000 /\ Seismic.seconds (4 # 1000) = 4 # 1000 /\
  Seismic.seconds 2000000 == 2 # 1000.
Proof. repeat split; vm_compute; reflexivity. Qed.

(** ** The header text *)

Lemma length_append (s1 s2 : string) :
  String.length (s1 ++ s2) = (String.length s1 + String.length s2)%nat.
Proof. induction s1 as [|c s1 IH]; simpl; [reflexivity | rewrite IH; reflexivity]. Qed.

Lemma length_substring : forall (s : string) (n m : nat),
  (n + m <= String.length s)%nat -> String.length (substring n m s) = m.
Proof.
  induction s as [|c s IH]; intros n m H; simpl in H.
  - assert (n = 0 /\ m = 0)%nat as [-> ->] by lia. reflexivity.
  - destruct n as [|n]; simpl.
    + destruct m as [|m]; simpl; [reflexivity|]. f_equal. apply (IH 0%nat). simpl. lia.
    + apply IH. lia.
Qed.

(** Rows of one width [w] joined with newlines: row [r] starts at
    [(w + 1) * r], and a newline follows every row but the last. *)
Lemma concat_rows (w : nat) : forall rows : list string,
  rows <> [] ->
  (forall row, In row rows -> String.length row = w) ->
  let t := String.concat Seismic.newline rows in
  String.length t = (length rows * (w + 1) - 1)%nat /\
  (forall r c, (r < length rows)%nat -> (c < w)%nat ->
     String.get ((w + 1) * r + c) t = String.get c (nth r rows ""%string)) /\
  (forall r, (S r < length rows)%nat ->
     String.get ((w + 1) * r + w) t = Some "010"%char).
Proof.
  induction rows as [|row rows IH]; intros Hne Hw; [contradiction|].
  destruct rows as [|row' rows].
  - simpl. assert (Hl : String.length row = w) by (apply Hw; left; reflexivity).
    repeat split.
    + lia.
    + intros r c Hr Hc. assert (r = 0)%nat as -> by lia.
      rewrite Nat.mul_0_r. reflexivity.
    + intros r Hr. lia.
  - assert (Hl : String.length row = w) by (apply Hw; left; reflexivity).
    destruct IH as (IH1 & IH2 & IH3);
      [discriminate | intros x Hx; apply Hw; right; exact Hx |].
    set (rest := String.concat Seismic.newline (row' :: rows)) in *.
    change (String.concat Seismic.newline (row :: row' :: rows))
      with (row ++ Seismic.newline ++ rest)%string.
    cbv zeta. repeat split.
    + rewrite !length_append, IH1, Hl. simpl String.length. simpl length. lia.
    + intros r c Hr Hc. destruct r as [|r].
      * rewrite Nat.mul_0_r. simpl nth. symmetry. apply append_correct1. lia.
      * replace ((w + 1) * S r + c)%nat
          with (((w + 1) * r + c + 1) + String.length row)%nat by lia.
        rewrite <- append_correct2.
        change 1%nat with (String.length Seismic.newline) at 2.
        rewrite <- append_correct2.
        rewrite IH2; [reflexivity | simpl in Hr |- *; lia | exact Hc].
    + intros r Hr. destruct r as [|r].
      * replace ((w + 1) * 0 + w)%nat with (0 + String.length row)%nat by lia.
        rewrite <- append_correct2. reflexivity.
      * replace ((w + 1) * S r + w)%nat
          with (((w + 1) * r + w + 1) + String.length row)%nat by lia.
        rewrite <- append_correct2.
        change 1%nat with (String.length Seismic.newline) at 2.
        rewrite <- append_correct2.
        apply IH3. simpl in Hr |- *. lia.
Qed.

Lemma header_rows_length h : length (Seismic.header_rows h) = 40%nat.
Proof. unfold Seismic.header_rows. rewrite length_map, length_seq. reflexivity. Qed.

Lemma header_rows_nth h r :
  (r < 40)%nat ->
  nth r (Seismic.header_rows h) ""%string = substring (r * 80) 80 h.
Proof.
  intros Hr. unfold Seismic.header_rows.
  set (f := fun r => substring (r * 80) 80 h).
  rewrite nth_indep with (d' := f 0%nat)
    by (rewrite length_map, length_seq; exact Hr).
  rewrite map_nth, seq_nth by exact Hr. reflexivity.
Qed.

(** X25. The header text [from_obspy] stores: a textual header that does
    not hold exactly 3200 characters ends in ValueError; one of 3200 gives
    a text of 3239 characters, its 40 rows of 80 characters in their
    order, character [c] of row [r] at position [81 * r + c], and a
    newline after each row but the last. *)
Theorem header_text_layout h :
  (Seismic.header_text h = Raise ValueError <-> String.length h <> 3200%nat) /\
  forall t, Seismic.header_text h = Ok t ->
    String.length h = 3200%nat /\
    String.length t = 3239%nat /\
    (forall r c, (r < 40)%nat -> (c < 80)%nat ->
       String.get (81 * r + c) t = String.get (80 * r + c) h) /\
    (forall r, (r < 39)%nat -> String.get (81 * r + 80) t = Some "010"%char).
Proof.
  unfold Seismic.header_text.
  destruct (Nat.eqb_spec (String.length h) 3200) as [Hl|Hl].
  - split; [split; [discriminate | intros H; contradiction]|].
    intros t Ht.
    assert (Et : t = String.concat Seismic.newline (Seismic.header_rows h))
      by congruence.
    clear Ht. subst t.
    destruct (concat_rows 80 (Seismic.header_rows h)) as (H1 & H2 & H3).
    + intros E. apply (f_equal (@length string)) in E.
      rewrite header_rows_length in E. discriminate.
    + intros row Hin. unfold Seismic.header_rows in Hin.
      apply in_map_iff in Hin. destruct Hin as (r & <- & Hr).
      apply in_seq in Hr. apply length_substring. lia.
    + rewrite header_rows_length in *. repeat split.
      * exact Hl.
      * rewrite H1. reflexivity.
      * intros r c Hr Hc. change 81%nat with (80 + 1)%nat.
        rewrite H2, header_rows_nth by assumption.
        rewrite substring_correct1 by exact Hc. f_equal. lia.
      * intros r Hr. change 81%nat with (80 + 1)%nat. apply H3. lia.
  - split; [split; [intros _; exact Hl | reflexivity]|].
    intros t Ht. discriminate.
Qed.

Lemma header_text_layout_witness :
  exists t,
    Seismic.header_text Sample.header = Ok t /\
    String.length t = 3239%nat /\
    String.get 81 t = Some "B"%char /\ String.get 80 t = Some "010"%char.
Proof.
  pose (t := String.concat Seismic.newline (Seismic.header_rows Sample.header)).
  assert (E : Seismic.header_text Sample.header = Ok t)
    by (vm_compute; reflexivity).
  destruct (proj2 (header_text_layout Sample.header) t E)
    as (_ & Hlen & Hget & Hnl).
  exists t. split; [exact E|]. split; [exact Hlen|]. split.
  - change 81%nat with (81 * 1 + 0)%nat. rewrite Hget by lia.
    vm_compute. reflexivity.
  - apply (Hnl 0%nat). lia.
Defined.
